(** * DoubleSpendProofStorage: orphan accounting, eviction and the rejected filter

    A shallow embedding of [src/dsproof/storage.cpp].  The store is a record
    of its members, every member function is a computation in a small monad
    that threads the store, collects the lines written to the debug log and
    distinguishes a normal return from a thrown C++ exception, a failed
    [assert] and undefined behaviour.

    Conventions.
    - [size_t] is a 64-bit unsigned integer, modelled in [N] with the
      wrap-around of [+=] and [-=] written out ([wrap]).
    - [int64_t] values (peer handles, time stamps) are modelled in [Z]; the
      code only compares and copies them.
    - [double] is IEEE 754 binary64, modelled with the standard library's
      [SpecFloat] (round to nearest, ties to even).
    - The lock [m_lock] is recursive and held by every member function for
      its whole body; the embedding is sequential and has no lock. *)

From Stdlib Require Import NArith ZArith List Bool Lia Sorted Permutation.
From Stdlib Require Import Floats.SpecFloat.
Import ListNotations.

Set Implicit Arguments.

(** ** Machine integers *)

Definition SIZE_MAX : N := 18446744073709551615.

(** Value of a [size_t] expression after reduction modulo 2^64. *)
Definition wrap (n : N) : N := (n mod 18446744073709551616)%N.

(** ** Double precision *)

Module Double.

Definition prec : Z := 53.
Definition emax : Z := 1024.

(** Integral conversion [size_t -> double]. *)
Definition of_size_t (n : N) : spec_float :=
  binary_normalize prec emax (Z.of_N n) 0 false.

(** The literal [1.25], that is 5 * 2^-2. *)
Definition c1_25 : spec_float := binary_normalize prec emax 5 (-2) false.

Definition mul (x y : spec_float) : spec_float := SFmul prec emax x y.

(** Floating-integral conversion [double -> size_t]: truncation toward
    zero; the behaviour is undefined ([None]) when the truncated value
    cannot be represented. *)
Definition to_size_t (x : spec_float) : option N :=
  match x with
  | S754_zero _ => Some 0%N
  | S754_finite false m e =>
      let v := Z.to_N (Z.shiftl (Zpos m) e) in
      if (v <=? SIZE_MAX)%N then Some v else None
  | S754_finite true m e =>
      if (Z.shiftl (Zpos m) e =? 0)%Z then Some 0%N else None
  | S754_infinity _ | S754_nan => None
  end.

End Double.

(** ** Data model *)

(** [uint256]; the store only compares identities. *)
Definition DspId : Type := N.

(** [int64_t]; negative means no peer. *)
Definition NodeId : Type := Z.

Record COutPoint : Type := mkOutPoint { GetTxId : N; GetN : N }.

(** Modelled from the spec: the class [DoubleSpendProof] is declared outside
    this file.  The payload is opaque to the store, which observes its
    identity, the output it refers to and whether it is empty; the record
    holds these three observations. *)
Record DoubleSpendProof : Type := mkProof {
  GetId : DspId;
  prevOutPoint : COutPoint;
  isEmpty : bool
}.

(** Modelled from the spec: the default constructor of [DoubleSpendProof] is
    declared outside this file; a default-constructed proof is the empty one
    [lookup] answers with for an identity that is not stored. *)
Definition default_proof : DoubleSpendProof :=
  {| GetId := 0%N; prevOutPoint := mkOutPoint 0 0; isEmpty := true |}.

(** One record of [m_proofs]. *)
Record Entry : Type := mkEntry {
  proof : DoubleSpendProof;
  orphan : bool;
  nodeId : NodeId;
  timeStamp : Z
}.

(** Modelled from the spec: the member initialisers of [Entry] are in the
    header.  A new record is not an orphan, has no peer (a negative handle)
    and no time stamp (-1). *)
Definition new_entry (p : DoubleSpendProof) : Entry :=
  {| proof := p; orphan := false; nodeId := (-1)%Z; timeStamp := (-1)%Z |}.

Definition entry_id (e : Entry) : DspId := GetId (proof e).

Definition set_orphan (b : bool) (e : Entry) : Entry :=
  {| proof := proof e; orphan := b; nodeId := nodeId e; timeStamp := timeStamp e |}.

Definition set_nodeId (n : NodeId) (e : Entry) : Entry :=
  {| proof := proof e; orphan := orphan e; nodeId := n; timeStamp := timeStamp e |}.

Definition set_timeStamp (t : Z) (e : Entry) : Entry :=
  {| proof := proof e; orphan := orphan e; nodeId := nodeId e; timeStamp := t |}.

(** Keys of a salted hasher, drawn at construction. *)
Record SaltedHasher : Type := mkHasher { k0 : N; k1 : N }.

(** ** The record index

    [m_proofs] is a Boost multi-index container: unique by identity, hashed
    by output, ordered (not unique) by time stamp.  It is modelled by the
    sequence of its records in the order of the time-stamp index, which is
    the order the eviction sweep walks.  Records with equal time stamps keep
    their order of arrival, as an ordered non-unique index links a record
    after the ones that compare equal. *)
Module Index.

Definition t : Type := list Entry.

Definition has_id (hash : DspId) (e : Entry) : bool := (entry_id e =? hash)%N.

(** [find(hash)] on the identity index. *)
Definition find (hash : DspId) (c : t) : option Entry :=
  List.find (has_id hash) c.

(** Link a record into the time-stamp index: after every record whose
    stamp is not greater. *)
Fixpoint link (e : Entry) (c : t) : t :=
  match c with
  | [] => [e]
  | x :: rest =>
      if (timeStamp e <? timeStamp x)%Z then e :: c else x :: link e rest
  end.

(** [emplace]: refused when the identity is already present. *)
Definition emplace (e : Entry) (c : t) : t :=
  match find (entry_id e) c with
  | Some _ => c
  | None => link e c
  end.

(** [erase(it)] for the record [it = find(hash)]. *)
Fixpoint erase (hash : DspId) (c : t) : t :=
  match c with
  | [] => []
  | x :: rest => if has_id hash x then rest else x :: erase hash rest
  end.

(** Assignment through the reference a modifier receives: the record is
    changed where it stands, the indices are not told. *)
Fixpoint update (hash : DspId) (f : Entry -> Entry) (c : t) : t :=
  match c with
  | [] => []
  | x :: rest => if has_id hash x then f x :: rest else x :: update hash f rest
  end.

(** The identity index finds a second record with the key of [hash]. *)
Definition collides (hash : DspId) (c : t) : bool :=
  (1 <? length (filter (has_id hash) c))%nat.

(** The time-stamp index checks a modified record against its neighbours. *)
Fixpoint in_place (prev : option Z) (hash : DspId) (c : t) : bool :=
  match c with
  | [] => true
  | x :: rest =>
      if has_id hash x then
        match prev with
        | Some p => negb (timeStamp x <? p)%Z
        | None => true
        end
        && match rest with
           | y :: _ => negb (timeStamp y <? timeStamp x)%Z
           | [] => true
           end
      else in_place (Some (timeStamp x)) hash rest
  end.

(** Re-link of a modified record in the time-stamp index. *)
Definition relink (hash : DspId) (c : t) : t :=
  match find hash c with
  | None => c
  | Some e => if in_place None hash c then c else link e (erase hash c)
  end.

Definition size (c : t) : N := N.of_nat (length c).

End Index.

(** ** The recently-rejected filter *)

(** Modelled from the spec: the filter class ([CRollingBloomFilter]) is
    declared and defined outside this file.  The specification asks for a
    probabilistic set with insertion, membership and reset and leaves the
    hash family open; the model is a Bloom filter, a bit vector with a
    non-empty family of hash functions that give bit positions. *)
Record RejectFilter : Type := mkFilter {
  hash_first : DspId -> N;
  hash_more : list (DspId -> N);
  bits : N
}.

Module Filter.

Definition positions (f : RejectFilter) (x : DspId) : list N :=
  hash_first f x :: map (fun h => h x) (hash_more f).

(** Modelled from the spec: [insert] of the filter class, missing here;
    it sets the bits of the identity. *)
Definition insert (x : DspId) (f : RejectFilter) : RejectFilter :=
  {| hash_first := hash_first f; hash_more := hash_more f;
     bits := fold_left N.setbit (positions f x) (bits f) |}.

(** Modelled from the spec: [contains] of the filter class, missing here;
    it holds when every bit of the identity is set, so it may hold of an
    identity that was never inserted. *)
Definition contains (x : DspId) (f : RejectFilter) : bool :=
  forallb (N.testbit (bits f)) (positions f x).

(** Modelled from the spec: [reset] of the filter class, missing here;
    it clears every bit. *)
Definition reset (f : RejectFilter) : RejectFilter :=
  {| hash_first := hash_first f; hash_more := hash_more f; bits := 0%N |}.

End Filter.

(** ** The store *)

Record Storage : Type := mkStorage {
  m_proofs : Index.t;
  m_recentRejects : RejectFilter;
  m_numOrphans : N;
  m_maxOrphans : N;
  m_secondsToKeepOrphans : Z;
  (** the hashers of the identity index and of the output index *)
  m_idHasher : SaltedHasher;
  m_outPointHasher : SaltedHasher
}.

Definition with_proofs (c : Index.t) (s : Storage) : Storage :=
  {| m_proofs := c; m_recentRejects := m_recentRejects s;
     m_numOrphans := m_numOrphans s; m_maxOrphans := m_maxOrphans s;
     m_secondsToKeepOrphans := m_secondsToKeepOrphans s;
     m_idHasher := m_idHasher s; m_outPointHasher := m_outPointHasher s |}.

Definition with_recentRejects (f : RejectFilter) (s : Storage) : Storage :=
  {| m_proofs := m_proofs s; m_recentRejects := f;
     m_numOrphans := m_numOrphans s; m_maxOrphans := m_maxOrphans s;
     m_secondsToKeepOrphans := m_secondsToKeepOrphans s;
     m_idHasher := m_idHasher s; m_outPointHasher := m_outPointHasher s |}.

Definition with_numOrphans (n : N) (s : Storage) : Storage :=
  {| m_proofs := m_proofs s; m_recentRejects := m_recentRejects s;
     m_numOrphans := n; m_maxOrphans := m_maxOrphans s;
     m_secondsToKeepOrphans := m_secondsToKeepOrphans s;
     m_idHasher := m_idHasher s; m_outPointHasher := m_outPointHasher s |}.

Definition with_maxOrphans (n : N) (s : Storage) : Storage :=
  {| m_proofs := m_proofs s; m_recentRejects := m_recentRejects s;
     m_numOrphans := m_numOrphans s; m_maxOrphans := n;
     m_secondsToKeepOrphans := m_secondsToKeepOrphans s;
     m_idHasher := m_idHasher s; m_outPointHasher := m_outPointHasher s |}.

Definition with_secondsToKeepOrphans (n : Z) (s : Storage) : Storage :=
  {| m_proofs := m_proofs s; m_recentRejects := m_recentRejects s;
     m_numOrphans := m_numOrphans s; m_maxOrphans := m_maxOrphans s;
     m_secondsToKeepOrphans := n;
     m_idHasher := m_idHasher s; m_outPointHasher := m_outPointHasher s |}.

(** ** Effects *)

Inductive exception : Type :=
| invalid_argument   (* std::invalid_argument *)
| runtime_error.     (* std::runtime_error *)

(** How a call ends. *)
Inductive outcome (A : Type) : Type :=
| Returns (a : A)          (* normal return *)
| Throws (e : exception)   (* an exception leaves the call; a caller may catch it *)
| Aborts                   (* a failed assert ends the process *)
| Undefined.               (* the C++ standard gives the call no meaning *)

Arguments Returns {A} a.
Arguments Throws {A} e.
Arguments Aborts {A}.
Arguments Undefined {A}.

(** Lines written to the debug log. *)
Inductive LogLine : Type :=
| LogModifyFailed (id : DspId)
    (* "DSProof: Failed to modify m_proofs for entry: %s" *)
| LogReaped (ctr num low high : N).
    (* "DSProof %s: reaped %d orphans, orphan count now %d (thresh-low: %d, thresh-high: %d" *)

Record Run (A : Type) : Type := mkRun {
  result : outcome A;
  store : Storage;
  logged : list LogLine
}.

Definition M (A : Type) : Type := Storage -> Run A.

Definition ret {A} (a : A) : M A := fun s => mkRun (Returns a) s [].

Definition bind {A B} (m : M A) (k : A -> M B) : M B := fun s =>
  let r := m s in
  match result r with
  | Returns a =>
      let r' := k a (store r) in
      mkRun (result r') (store r') (logged r ++ logged r')
  | Throws e => mkRun (Throws e) (store r) (logged r)
  | Aborts => mkRun Aborts (store r) (logged r)
  | Undefined => mkRun Undefined (store r) (logged r)
  end.

Declare Scope storage_scope.
Delimit Scope storage_scope with storage.
Notation "x <- m ;; k" := (bind m (fun x => k))
  (at level 100, m at next level, right associativity) : storage_scope.
Notation "m ;; k" := (bind m (fun _ => k))
  (at level 100, right associativity) : storage_scope.
Open Scope storage_scope.

Definition throw {A} (e : exception) : M A := fun s => mkRun (Throws e) s [].
Definition abort {A} : M A := fun s => mkRun Aborts s [].
Definition undefined {A} : M A := fun s => mkRun Undefined s [].
Definition LogPrintf (l : LogLine) : M unit := fun s => mkRun (Returns tt) s [l].
Definition get : M Storage := fun s => mkRun (Returns s) s [].
Definition modify_store (f : Storage -> Storage) : M unit :=
  fun s => mkRun (Returns tt) (f s) [].

(** [try { m } catch (...) { h; throw; }] *)
Definition on_throw {A} (m : M A) (h : M unit) : M A := fun s =>
  let r := m s in
  match result r with
  | Throws e =>
      let r' := h (store r) in
      match result r' with
      | Returns _ => mkRun (Throws e) (store r') (logged r ++ logged r')
      | Throws e' => mkRun (Throws e') (store r') (logged r ++ logged r')
      | Aborts => mkRun Aborts (store r') (logged r ++ logged r')
      | Undefined => mkRun Undefined (store r') (logged r ++ logged r')
      end
  | _ => r
  end.

(** A line offered to the log in the [BCLog::DSPROOF] category. *)
Definition LogPrint (l : LogLine) : M unit := LogPrintf l.

(** ** Member functions of [DoubleSpendProofStorage] *)

(** Read through an iterator or a reference to the record of [it]. *)
Definition deref (it : DspId) : M Entry :=
  s <- get ;;
  match Index.find it (m_proofs s) with
  | Some e => ret e
  | None => undefined
  end.

(** Write through the reference to the record of [it]. *)
Definition assign (it : DspId) (f : Entry -> Entry) : M unit :=
  modify_store (fun s => with_proofs (Index.update it f (m_proofs s)) s).

Definition index_erase (it : DspId) : M unit :=
  modify_store (fun s => with_proofs (Index.erase it (m_proofs s)) s).

(** Helper to catch index modify failures. *)
Definition ModFastFail (e : Entry) : M unit :=
  LogPrintf (LogModifyFailed (GetId (proof e))) ;;
  abort.

(** [m_proofs.modify(it, mod, rollback)].  The modifier runs on the record
    where it stands; a modifier that throws costs the record.  Then the
    indices take the change: the identity index refuses it when another
    record has the same key, in which case [rollback] is given the record
    (and the record is dropped if it still collides) and the call returns
    false; otherwise the time-stamp index re-links the record and the call
    returns true. *)
Definition modify (it : DspId) (modifier : M unit) (rollback : Entry -> M unit) : M bool :=
  on_throw modifier (index_erase it) ;;
  e <- deref it ;;
  s <- get ;;
  if Index.collides it (m_proofs s) then
    rollback e ;;
    s' <- get ;;
    (if Index.collides it (m_proofs s') then index_erase it else ret tt) ;;
    ret false
  else
    modify_store (fun s => with_proofs (Index.relink it (m_proofs s)) s) ;;
    ret true.

Definition decrementOrphans (n : N) : M unit :=
  if (n =? 0)%N then ret tt
  else
    s <- get ;;
    if (m_numOrphans s <? n)%N then throw runtime_error
    else modify_store (with_numOrphans (wrap (m_numOrphans s - n))).

(** [size_t(m_maxOrphans * 1.25)] *)
Definition highWaterMark (maxOrphans : N) : option N :=
  Double.to_size_t (Double.mul (Double.of_size_t maxOrphans) Double.c1_25).

(** The loop of [checkOrphanLimit].  The iterator [it] of the time-stamp
    index is the pair of the records [before] it and the records [from_it]
    on; [index.erase(it)] drops the head of [from_it], [++it] moves it to
    [before]. *)
Fixpoint reap (dontDeleteHash : DspId) (lowWaterMark : N)
    (before from_it : list Entry) (ctr : N) : M N :=
  match from_it with
  | [] => ret ctr
  | e :: rest =>
      s <- get ;;
      if (lowWaterMark <? m_numOrphans s)%N then
        if orphan e && negb (dontDeleteHash =? GetId (proof e))%N then
          modify_store (with_proofs (before ++ rest)) ;;
          decrementOrphans 1 ;;
          reap dontDeleteHash lowWaterMark before rest (wrap (ctr + 1))
        else
          reap dontDeleteHash lowWaterMark (before ++ [e]) rest ctr
      else ret ctr
  end.

Definition checkOrphanLimit (dontDeleteHash : DspId) : M unit :=
  s <- get ;;
  match highWaterMark (m_maxOrphans s) with
  | None => undefined
  | Some high =>
      let lowWaterMark := m_maxOrphans s in
      if (high <? m_numOrphans s)%N then
        ctr <- reap dontDeleteHash lowWaterMark [] (m_proofs s) 0 ;;
        s' <- get ;;
        LogPrint (LogReaped ctr (m_numOrphans s') lowWaterMark high)
      else ret tt
  end.

Definition incrementOrphans (n : N) (dontDeleteHash : DspId) : M unit :=
  if (n =? 0)%N then ret tt
  else
    modify_store (fun s => with_numOrphans (wrap (m_numOrphans s + n)) s) ;;
    checkOrphanLimit dontDeleteHash.

Definition add (dsp : DoubleSpendProof) : M bool :=
  if isEmpty dsp then throw invalid_argument
  else
    let hash := GetId dsp in
    s <- get ;;
    match Index.find hash (m_proofs s) with
    | Some it =>
        (if orphan it then
           decrementOrphans 1 ;;
           modify hash (assign hash (set_orphan false)) ModFastFail ;;
           ret tt
         else ret tt) ;;
        ret false
    | None =>
        modify_store
          (fun s => with_proofs (Index.emplace (new_entry dsp) (m_proofs s)) s) ;;
        ret true
    end.

(** [b] converted to [size_t]. *)
Definition size_t_of_bool (b : bool) : N := if b then 1%N else 0%N.

(** The modifier [addOrphan] hands to [modify], run on the record of [hash]
    through the reference [e]; [now] is the value of [GetTime()]. *)
Definition mark_orphan (hash : DspId) (peer : NodeId) (now : Z) : M unit :=
  e <- deref hash ;;
  (if (nodeId e <? 0)%Z && (-1 <? peer)%Z
   then assign hash (set_nodeId peer) else ret tt) ;;
  e <- deref hash ;;
  (if (timeStamp e <? 0)%Z
   then assign hash (set_timeStamp now) else ret tt) ;;
  e <- deref hash ;;
  incrementOrphans (size_t_of_bool (negb (orphan e))) hash ;;
  assign hash (set_orphan true).

Definition addOrphan (dsp : DoubleSpendProof) (peer : NodeId) (now : Z) : M unit :=
  add dsp ;;
  let hash := GetId dsp in
  s <- get ;;
  match Index.find hash (m_proofs s) with
  | None => abort
  | Some _ =>
      modify hash (mark_orphan hash peer now) ModFastFail ;;
      ret tt
  end.

Definition claimOrphan (hash : DspId) : M unit :=
  s <- get ;;
  match Index.find hash (m_proofs s) with
  | Some it =>
      if orphan it then
        decrementOrphans 1 ;;
        modify hash (assign hash (set_orphan false)) ModFastFail ;;
        ret tt
      else ret tt
  | None => ret tt
  end.

Definition remove (hash : DspId) : M bool :=
  s <- get ;;
  match Index.find hash (m_proofs s) with
  | Some it =>
      decrementOrphans (size_t_of_bool (orphan it)) ;;
      index_erase hash ;;
      ret true
  | None => ret false
  end.

Definition lookup (hash : DspId) (s : Storage) : DoubleSpendProof :=
  match Index.find hash (m_proofs s) with
  | Some it => proof it
  | None => default_proof
  end.

(** [exists(hash)] *)
Definition exists_ (hash : DspId) (s : Storage) : bool :=
  match Index.find hash (m_proofs s) with
  | Some _ => true
  | None => false
  end.

Definition isRecentlyRejectedProof (hash : DspId) (s : Storage) : bool :=
  Filter.contains hash (m_recentRejects s).

Definition markProofRejected (hash : DspId) : M unit :=
  modify_store (fun s => with_recentRejects (Filter.insert hash (m_recentRejects s)) s).

Definition newBlockFound : M unit :=
  modify_store (fun s => with_recentRejects (Filter.reset (m_recentRejects s)) s).

Definition size (s : Storage) : N := Index.size (m_proofs s).

Definition clear : M unit :=
  modify_store (fun s => with_proofs [] s) ;;
  modify_store (fun s => with_recentRejects (Filter.reset (m_recentRejects s)) s) ;;
  modify_store (with_numOrphans 0).

Definition secondsToKeepOrphans (s : Storage) : Z := m_secondsToKeepOrphans s.

Definition setSecondsToKeepOrphans (secs : Z) : M unit :=
  if (0 <=? secs)%Z then modify_store (with_secondsToKeepOrphans secs) else ret tt.

Definition maxOrphans (s : Storage) : N := m_maxOrphans s.

Definition setMaxOrphans (max : N) : M unit := modify_store (with_maxOrphans max).

Definition numOrphans (s : Storage) : N := m_numOrphans s.

(** The constructor.  The keys of the hashers and the hash family of the
    filter are drawn at random; the defaults of [m_maxOrphans] and
    [m_secondsToKeepOrphans] are set in the header. *)
Record Settings : Type := mkSettings {
  idHasherKeys : SaltedHasher;
  outPointHasherKeys : SaltedHasher;
  filterHash : DspId -> N;
  filterHashes : list (DspId -> N);
  defaultMaxOrphans : N;
  defaultSecondsToKeepOrphans : Z
}.

Definition construct (cfg : Settings) : Storage :=
  {| m_proofs := [];
     m_recentRejects := mkFilter (filterHash cfg) (filterHashes cfg) 0;
     m_numOrphans := 0;
     m_maxOrphans := defaultMaxOrphans cfg;
     m_secondsToKeepOrphans := defaultSecondsToKeepOrphans cfg;
     m_idHasher := idHasherKeys cfg;
     m_outPointHasher := outPointHasherKeys cfg |}.

(** ** Calls of the public interface that change the store *)

Inductive Call : Type :=
| Add (dsp : DoubleSpendProof)
| AddOrphan (dsp : DoubleSpendProof) (peer : NodeId) (now : Z)
| ClaimOrphan (hash : DspId)
| Remove (hash : DspId)
| Clear
| MarkProofRejected (hash : DspId)
| NewBlockFound
| SetMaxOrphans (max : N)
| SetSecondsToKeepOrphans (secs : Z).

(** A call with its value dropped. *)
Definition void {A} (m : M A) : M unit := m ;; ret tt.

Definition exec (c : Call) : M unit :=
  match c with
  | Add dsp => void (add dsp)
  | AddOrphan dsp peer now => addOrphan dsp peer now
  | ClaimOrphan hash => claimOrphan hash
  | Remove hash => void (remove hash)
  | Clear => clear
  | MarkProofRejected hash => markProofRejected hash
  | NewBlockFound => newBlockFound
  | SetMaxOrphans max => setMaxOrphans max
  | SetSecondsToKeepOrphans secs => setSecondsToKeepOrphans secs
  end.

(** ** Notions used by the specification *)

(** Order of the time-stamp index. *)
Definition le_ts (a b : Entry) : Prop := (timeStamp a <= timeStamp b)%Z.

Definition time_ordered (c : Index.t) : Prop := StronglySorted le_ts c.

Definition ids (c : Index.t) : list DspId := map entry_id c.

(** Number of stored records whose orphan flag is true. *)
Definition count_orphans (c : Index.t) : nat := length (filter orphan c).

(** floor(M * 1.25) *)
Definition floor_1_25 (M : N) : N := (5 * M / 4)%N.

(** A record the sweep may erase: an orphan other than the one
    [addOrphan] is taking in. *)
Definition evictable (spared : DspId) (e : Entry) : bool :=
  orphan e && negb (spared =? entry_id e)%N.

Definition count_evictable (spared : DspId) (c : Index.t) : nat :=
  length (filter (evictable spared) c).

(** The index without its first [k] evictable records. *)
Fixpoint evict (spared : DspId) (k : nat) (c : Index.t) : Index.t :=
  match c with
  | [] => []
  | e :: rest =>
      match k with
      | O => c
      | S k' =>
          if evictable spared e then evict spared k' rest
          else e :: evict spared k rest
      end
  end.

(** The sweep as the specification words it: nothing while the count is at
    most [high]; otherwise the oldest evictable records go, one per unit the
    count is above [low], as far as there are any. *)
Definition sweep_spec (spared : DspId) (low high : N) (s : Storage) : Storage :=
  if (m_numOrphans s <=? high)%N then s
  else
    let k := N.min (m_numOrphans s - low) (N.of_nat (count_evictable spared (m_proofs s))) in
    with_numOrphans (m_numOrphans s - k)
      (with_proofs (evict spared (N.to_nat k) (m_proofs s)) s).

(** What taking a stored record in as an orphan does to its peer handle and
    its time stamp: the handle is adopted when the record has none and the
    caller has one, the stamp is set when the record has none. *)
Definition adopt (peer : NodeId) (now : Z) (e : Entry) : Entry :=
  {| proof := proof e;
     orphan := orphan e;
     nodeId := if (nodeId e <? 0)%Z && (-1 <? peer)%Z then peer else nodeId e;
     timeStamp := if (timeStamp e <? 0)%Z then now else timeStamp e |}.

(** The second half of [addOrphan] as the specification words it, for the
    store [s] that [add] left: adopt peer and time, count the record in unless
    it is an orphan already, sweep with the record protected, then set the
    flag. *)
Definition mark_orphan_spec (hash : DspId) (peer : NodeId) (now : Z) (high : N)
    (s : Storage) : Storage :=
  match Index.find hash (m_proofs s) with
  | None => s
  | Some e =>
      let s2 := with_proofs (Index.update hash (adopt peer now) (m_proofs s)) s in
      let s3 :=
        if orphan e then s2
        else sweep_spec hash (m_maxOrphans s) high
               (with_numOrphans (m_numOrphans s + 1) s2) in
      with_proofs
        (Index.relink hash (Index.update hash (set_orphan true) (m_proofs s3))) s3
  end.

(** The index can take one more record: its size stays a [size_t]. *)
Definition has_room (s : Storage) : Prop := (size s < SIZE_MAX)%N.

(** The call came back to its caller, by a return or by an exception. *)
Definition completes {A} (o : outcome A) : Prop :=
  match o with
  | Returns _ | Throws _ => True
  | Aborts | Undefined => False
  end.

(** States of a store that was constructed and then used through its public
    interface. *)
Inductive reachable : Storage -> Prop :=
| reachable_construct (cfg : Settings) : reachable (construct cfg)
| reachable_call (s : Storage) (c : Call) :
    reachable s -> has_room s -> completes (result (exec c s)) ->
    reachable (store (exec c s)).

(** What holds of every reachable state. *)
Record consistent (s : Storage) : Prop := mkConsistent {
  unique_ids : NoDup (ids (m_proofs s));
  counter_agrees : m_numOrphans s = N.of_nat (count_orphans (m_proofs s));
  size_fits : (size s <= SIZE_MAX)%N;
  index_ordered : time_ordered (m_proofs s);
  proofs_not_empty : Forall (fun e => isEmpty (proof e) = false) (m_proofs s)
}.

(** The range of [maxOrphans] in which the product by 1.25 is computed
    without rounding: 5 * M < 2^53, that is M <= 1801439850948198. *)
Definition exact_product (M : N) : Prop := (5 * M < 9007199254740992)%N.

(** Calls of [addOrphan] with proofs that are not empty. *)
Definition orphan_call (c : Call) : Prop :=
  match c with
  | AddOrphan dsp _ _ => isEmpty dsp = false
  | _ => False
  end.

(** The store after a sequence of calls. *)
Definition after (calls : list Call) (s : Storage) : Storage :=
  fold_left (fun s c => store (exec c s)) calls s.

(** Number of records [checkOrphanLimit] erases. *)
Definition reaped (spared : DspId) (s : Storage) : N :=
  N.min (m_numOrphans s - m_maxOrphans s)
        (N.of_nat (count_evictable spared (m_proofs s))).

(** Modifiers that leave the key of an index alone. *)
Definition keeps_id (f : Entry -> Entry) : Prop := forall e, entry_id (f e) = entry_id e.
Definition keeps_time (f : Entry -> Entry) : Prop := forall e, timeStamp (f e) = timeStamp e.

(** Every call of the sequence finds room and comes back. *)
Fixpoint runs (calls : list Call) (s : Storage) : bool :=
  match calls with
  | [] => true
  | c :: rest =>
      (size s <? SIZE_MAX)%N
      && match result (exec c s) with
         | Returns _ | Throws _ => true
         | Aborts | Undefined => false
         end
      && runs rest (store (exec c s))
  end.

(** ** Queries that list records *)

Definition outpoint_eqb (a b : COutPoint) : bool :=
  (GetTxId a =? GetTxId b)%N && (GetN a =? GetN b)%N.

(** [m_proofs.get<tag_COutPoint>().equal_range(prevOut)]: the records whose
    proof refers to [prevOut].  The output index is hashed and gives them in
    an order the container does not specify; they are listed here in the
    order of the time-stamp index, and nothing proved of them depends on the
    order.

    Modelled from the spec: the key extractor of the output index is declared
    in the header; the index is keyed by the output the proof refers to. *)
Definition equal_range (prevOut : COutPoint) (c : Index.t) : list Entry :=
  filter (fun e => outpoint_eqb (prevOutPoint (proof e)) prevOut) c.

(** The loop of [findOrphans] over the range, [answer] being the list built
    so far. *)
Fixpoint findOrphans_loop (range : list Entry) (answer : list (DspId * NodeId))
    : list (DspId * NodeId) :=
  match range with
  | [] => answer
  | it :: rest =>
      findOrphans_loop rest
        (if orphan it then answer ++ [(GetId (proof it), nodeId it)] else answer)
  end.

Definition findOrphans (prevOut : COutPoint) (s : Storage) : list (DspId * NodeId) :=
  findOrphans_loop (equal_range prevOut (m_proofs s)) [].

(** The loop of [getAll] over the records; the identity index it walks is
    hashed, so the order is again one the container does not specify. *)
Fixpoint getAll_loop (includeOrphans : bool) (entries : list Entry)
    (ret : list (DoubleSpendProof * bool)) : list (DoubleSpendProof * bool) :=
  match entries with
  | [] => ret
  | entry :: rest =>
      if orphan entry && negb includeOrphans
      then getAll_loop includeOrphans rest ret
      else getAll_loop includeOrphans rest (ret ++ [(proof entry, orphan entry)])
  end.

Definition getAll (includeOrphans : bool) (s : Storage) : list (DoubleSpendProof * bool) :=
  getAll_loop includeOrphans (m_proofs s) [].

(** Calls that can take a record out of the store. *)
Definition may_erase (c : Call) (h : DspId) : Prop :=
  match c with
  | Remove h' => h' = h
  | Clear => True
  | _ => False
  end.

(** Calls that write the rejected filter. *)
Definition writes_filter (c : Call) : bool :=
  match c with
  | Clear | MarkProofRejected _ | NewBlockFound => true
  | _ => false
  end.

(** ** Sample values *)

Module Sample.

Definition settings : Settings :=
  {| idHasherKeys := mkHasher 11 12;
     outPointHasherKeys := mkHasher 13 14;
     filterHash := fun x => (x mod 64)%N;
     filterHashes := [fun x => (x / 64 mod 64)%N];
     defaultMaxOrphans := 65535;
     defaultSecondsToKeepOrphans := 90 |}.

(** A proof that is not empty, with identity [i]. *)
Definition dsp (i : N) : DoubleSpendProof :=
  {| GetId := i; prevOutPoint := mkOutPoint i 0; isEmpty := false |}.

Definition fresh : Storage := construct settings.

(** Limit 2, orphans 1 and 2 taken in at times 100 and 101. *)
Definition two_orphans : Storage :=
  after [SetMaxOrphans 2;
         AddOrphan (dsp 1) 5%Z 100%Z;
         AddOrphan (dsp 2) 6%Z 101%Z] fresh.

(** Limit 0, one orphan taken in. *)
Definition limit_zero : Storage :=
  after [SetMaxOrphans 0; AddOrphan (dsp 1) 5%Z 100%Z] fresh.

(** A limit beyond the range in which the product by 1.25 is exact. *)
Definition huge_limit : N := 4503599627370499.   (* 2^52 + 3 *)

(** A store in which two records carry the same identity and the counter
    is 0 although one of them is an orphan: no call leads here. *)
Definition broken : Storage :=
  with_proofs [set_orphan true (new_entry (dsp 1)); new_entry (dsp 1)] fresh.

End Sample.

Unset Implicit Arguments.

(** * Supporting lemmas *)

Ltac fields :=
  cbn [m_proofs m_recentRejects m_numOrphans m_maxOrphans m_secondsToKeepOrphans
       m_idHasher m_outPointHasher with_numOrphans with_proofs with_recentRejects
       with_maxOrphans with_secondsToKeepOrphans result store logged] in *.

(** ** Double precision: the product by 1.25 *)

Module DoubleFacts.

Local Open Scope Z_scope.

Lemma digits2_log2 (p : positive) : Zpos (digits2_pos p) = Z.log2 (Zpos p) + 1.
Proof.
assert (H : forall q, digits2_pos q = Pos.size q) by (induction q; simpl; congruence).
rewrite H. destruct p; simpl; lia.
Qed.

Lemma digits2_unique (p : positive) (d : Z) :
2 ^ (d - 1) <= Zpos p < 2 ^ d -> 0 < d -> Zpos (digits2_pos p) = d.
Proof.
intros Hb Hd. rewrite digits2_log2.
assert (E : Z.log2 (Zpos p) = d - 1).
{ apply Z.log2_unique; [lia|]. replace (Z.succ (d - 1)) with d by lia. exact Hb. }
lia.
Qed.

Lemma digits2_bounds (p : positive) :
2 ^ (Zpos (digits2_pos p) - 1) <= Zpos p < 2 ^ (Zpos (digits2_pos p)).
Proof.
rewrite digits2_log2. replace (Z.log2 (Zpos p) + 1 - 1) with (Z.log2 (Zpos p)) by lia.
replace (Z.log2 (Z.pos p) + 1) with (Z.succ (Z.log2 (Z.pos p))) by lia.
apply Z.log2_spec. lia.
Qed.

Lemma iter_pos_nat {A} (f : A -> A) (p : positive) (x : A) :
iter_pos f p x = Nat.iter (Pos.to_nat p) f x.
Proof.
revert x. induction p; intros x; cbn [iter_pos].
- rewrite !IHp, Pos2Nat.inj_xI, Nat.iter_succ_r, <- Nat.iter_add.
  f_equal. lia.
- rewrite !IHp, Pos2Nat.inj_xO, <- Nat.iter_add. f_equal. lia.
- reflexivity.
Qed.

Lemma shr_1_even (a : Z) : 0 <= a ->
shr_1 (Build_shr_record (2 * a) false false) = Build_shr_record a false false.
Proof. intros Ha. destruct a as [|p|p]; try lia; reflexivity. Qed.

Lemma iter_shr_1_exact (n : nat) (a : Z) : 0 <= a ->
Nat.iter n shr_1 (Build_shr_record (a * 2 ^ Z.of_nat n) false false)
= Build_shr_record a false false.
Proof.
revert a. induction n; intros a Ha.
- simpl. f_equal. lia.
- rewrite Nat.iter_succ_r.
  replace (a * 2 ^ Z.of_nat (S n)) with (2 * (a * 2 ^ Z.of_nat n)).
  + rewrite shr_1_even by (apply Z.mul_nonneg_nonneg; lia). apply IHn, Ha.
  + rewrite Nat2Z.inj_succ, Z.pow_succ_r by lia. lia.
Qed.

Lemma fexp_normal (x : Z) : -1021 <= x -> fexp 53 1024 x = x - 53.
Proof. intros Hx. unfold fexp, emin. lia. Qed.

Lemma shr_exact (a : Z) (n e : Z) : 0 <= a -> 0 <= n ->
shr (Build_shr_record (a * 2 ^ n) false false) e n
= (Build_shr_record a false false, e + n).
Proof.
intros Ha Hn. destruct n as [|p|p]; try lia.
- simpl. rewrite Z.mul_1_r, Z.add_0_r. reflexivity.
- unfold shr. rewrite iter_pos_nat.
  rewrite <- (positive_nat_Z p) at 1.
  rewrite iter_shr_1_exact by exact Ha. reflexivity.
Qed.

Lemma round_aux_shift (M a : positive) (n e : Z) :
Zpos (digits2_pos a) = 53 -> 0 <= n -> Zpos M = Zpos a * 2 ^ n ->
-1074 <= e + n <= 971 ->
binary_round_aux 53 1024 false (Zpos M) e loc_Exact = S754_finite false a (e + n).
Proof.
intros Ha Hn HM He.
assert (Hab := digits2_bounds a). rewrite Ha in Hab.
assert (HdM : Zpos (digits2_pos M) = 53 + n).
{ apply digits2_unique; [|lia]. rewrite HM.
  replace (53 + n - 1) with (52 + n) by lia.
  rewrite !Z.pow_add_r by lia.
  assert (0 < 2 ^ n) by (apply Z.pow_pos_nonneg; lia).
  change (53 - 1) with 52 in Hab. nia. }
unfold binary_round_aux, shr_fexp.
cbn [Zdigits2 shr_record_of_loc]. rewrite HdM, fexp_normal by lia.
replace (53 + n + e - 53 - e) with n by lia.
rewrite HM, shr_exact by lia.
cbn [shr_m loc_of_shr_record round_nearest_even Zdigits2 shr_record_of_loc].
rewrite Ha, fexp_normal by lia.
replace (53 + (e + n) - 53 - (e + n)) with 0 by lia.
cbn [shr shr_m].
replace (e + n <=? 1024 - 53) with true by (symmetry; apply Z.leb_le; lia).
reflexivity.
Qed.

Lemma iter_xO_pow2 (m q : positive) : Zpos (Pos.iter xO m q) = Zpos m * 2 ^ Zpos q.
Proof.
induction q using Pos.peano_ind.
- simpl. lia.
- rewrite Pos.iter_succ, Pos2Z.inj_xO, IHq, Pos2Z.inj_succ, Z.pow_succ_r by lia. lia.
Qed.

(** A positive integer below 2^53 converts to the double of the same value. *)
Lemma of_size_t_exact (m : positive) :
Zpos (digits2_pos m) < 53 ->
exists a : positive,
  Double.of_size_t (Npos m) = S754_finite false a (Zpos (digits2_pos m) - 53)
  /\ Zpos a = Zpos m * 2 ^ (53 - Zpos (digits2_pos m)).
Proof.
intros Hd. set (d := Zpos (digits2_pos m)) in *.
assert (Hb := digits2_bounds m). fold d in Hb.
assert (Hd0 : 0 < d) by (unfold d; lia).
unfold Double.of_size_t, Double.prec, Double.emax.
cbn [Z.of_N binary_normalize]. unfold binary_round. fold d.
rewrite Z.add_0_r, fexp_normal by lia.
unfold shl_align. rewrite Z.sub_0_r.
destruct (d - 53) as [|p|p] eqn:E; try lia.
exists (Pos.iter xO m p).
assert (Ha : Zpos (Pos.iter xO m p) = Zpos m * 2 ^ (53 - d)).
{ rewrite iter_xO_pow2. f_equal. f_equal. lia. }
split; [|exact Ha].
replace (Zneg p) with (Zneg p + 0) at 2 by lia.
apply round_aux_shift with (n := 0); try lia.
apply digits2_unique; [|lia]. rewrite Ha.
assert (H1 : 2 ^ 52 = 2 ^ (d - 1) * 2 ^ (53 - d)).
{ rewrite <- Z.pow_add_r by lia. f_equal. lia. }
assert (H2 : 2 ^ 53 = 2 ^ d * 2 ^ (53 - d)).
{ rewrite <- Z.pow_add_r by lia. f_equal. lia. }
assert (0 < 2 ^ (53 - d)) by (apply Z.pow_pos_nonneg; lia).
change (53 - 1) with 52. rewrite H1, H2. nia.
Qed.

Lemma highWaterMark_exact (m : N) :
(5 * m < 2 ^ 53)%N -> highWaterMark m = Some (5 * m / 4)%N.
Proof.
intros Hm. unfold highWaterMark. destruct m as [|m]; [reflexivity|].
assert (HmZ : 5 * Zpos m < 2 ^ 53) by lia.
assert (Hbm := digits2_bounds m).
set (d := Zpos (digits2_pos m)) in *.
assert (Hd0 : 0 < d) by (unfold d; lia).
assert (Hd : d < 53).
{ destruct (Z_lt_ge_dec d 53) as [|Hge]; [assumption|exfalso].
  assert (2 ^ 52 <= 2 ^ (d - 1)) by (apply Z.pow_le_mono_r; lia).
  change (2 ^ 53) with (2 * 2 ^ 52) in HmZ. lia. }
destruct (of_size_t_exact m Hd) as (mz & Hconv & Hmz). fold d in Hconv, Hmz.
rewrite Hconv.
change Double.c1_25 with (S754_finite false 5629499534213120 (-52)).
unfold Double.mul, Double.prec, Double.emax. cbn [SFmul xorb].
assert (Hb5 := digits2_bounds (5 * m)).
set (dg := Zpos (digits2_pos (5 * m))) in *.
assert (Hdg0 : 0 < dg) by (unfold dg; lia).
assert (Hdg : dg <= 53).
{ destruct (Z_le_gt_dec dg 53) as [|Hgt]; [assumption|exfalso].
  assert (2 ^ 53 <= 2 ^ (dg - 1)) by (apply Z.pow_le_mono_r; lia).
  lia. }
assert (Hdd : d <= dg).
{ unfold d, dg. rewrite !digits2_log2.
  assert (Z.log2 (Zpos m) <= Z.log2 (Zpos (5 * m))) by (apply Z.log2_le_mono; lia).
  lia. }
assert (Hpos : 0 < Zpos (5 * m) * 2 ^ (53 - dg)).
{ apply Z.mul_pos_pos; [lia|apply Z.pow_pos_nonneg; lia]. }
set (a := Z.to_pos (Zpos (5 * m) * 2 ^ (53 - dg))).
assert (Ha : Zpos a = Zpos (5 * m) * 2 ^ (53 - dg)) by (unfold a; lia).
rewrite (@round_aux_shift (mz * 5629499534213120) a (50 - d + dg)); try lia.
- replace (d - 53 + -52 + (50 - d + dg)) with (dg - 55) by lia.
  cbn [Double.to_size_t].
  rewrite Z.shiftl_div_pow2 by lia.
  assert (Hv : Zpos a / 2 ^ (- (dg - 55)) = Zpos (5 * m) / 4).
  { rewrite Ha. replace (- (dg - 55)) with (2 + (53 - dg)) by lia.
    rewrite Z.pow_add_r by lia. change (2 ^ 2) with 4.
    apply Z.div_mul_cancel_r; [lia|]. apply Z.pow_nonzero; lia. }
  rewrite Hv.
  assert (Hn : Z.to_N (Zpos (5 * m) / 4) = (5 * Npos m / 4)%N).
  { change (Zpos (5 * m)) with (Z.of_N (5 * Npos m)). change 4 with (Z.of_N 4).
    rewrite <- N2Z.inj_div. apply N2Z.id. }
  rewrite Hn.
  assert (Hle : (5 * Npos m / 4 <= SIZE_MAX)%N).
  { unfold SIZE_MAX.
    assert (5 * Npos m / 4 <= 5 * Npos m)%N by (apply N.Div0.div_le_upper_bound; lia).
    assert (2 ^ 53 = 9007199254740992)%N by reflexivity. lia. }
  apply N.leb_le in Hle. rewrite Hle. reflexivity.
- apply digits2_unique; [|lia]. rewrite Ha. change (53 - 1) with 52.
  assert (H1 : 2 ^ 52 = 2 ^ (dg - 1) * 2 ^ (53 - dg)).
  { rewrite <- Z.pow_add_r by lia. f_equal. lia. }
  assert (H2 : 2 ^ 53 = 2 ^ dg * 2 ^ (53 - dg)).
  { rewrite <- Z.pow_add_r by lia. f_equal. lia. }
  assert (0 < 2 ^ (53 - dg)) by (apply Z.pow_pos_nonneg; lia).
  rewrite H1, H2. nia.
- rewrite Pos2Z.inj_mul, Hmz, Ha, Pos2Z.inj_mul.
  change (Zpos 5629499534213120) with (5 * 2 ^ 50).
  replace (50 - d + dg) with (50 - d + dg + 0) by lia.
  assert (E : 2 ^ (53 - d) * 2 ^ 50 = 2 ^ (53 - dg) * 2 ^ (50 - d + dg)).
  { rewrite <- !Z.pow_add_r by lia. f_equal. lia. }
  rewrite Z.add_0_r. 
  transitivity (5 * Zpos m * (2 ^ (53 - d) * 2 ^ 50)); [ring|].
  rewrite E. ring.
Qed.

End DoubleFacts.

Local Open Scope N_scope.

(** ** Facts about the record index *)

Module IndexFacts.
Import Index.

Lemma has_id_true h e : has_id h e = true <-> entry_id e = h.
Proof. unfold has_id. apply N.eqb_eq. Qed.

Lemma has_id_false h e : has_id h e = false <-> entry_id e <> h.
Proof. unfold has_id. apply N.eqb_neq. Qed.

Lemma find_none h c : find h c = None <-> ~ In h (ids c).
Proof.
  unfold find, ids. induction c as [|x c IH]; simpl.
  - tauto.
  - destruct (has_id h x) eqn:E.
    + apply has_id_true in E. split; [discriminate|]. intros H. exfalso. auto.
    + apply has_id_false in E. rewrite IH. tauto.
Qed.

Lemma find_split h c x :
  find h c = Some x ->
  exists l1 l2, c = l1 ++ x :: l2 /\ entry_id x = h /\ ~ In h (ids l1).
Proof.
  unfold find, ids. induction c as [|y c IH]; simpl; [discriminate|].
  destruct (has_id h y) eqn:E.
  - intros [= ->]. apply has_id_true in E. exists [], c. simpl. tauto.
  - apply has_id_false in E. intros H. destruct (IH H) as (l1 & l2 & -> & Hx & Hn).
    exists (y :: l1), l2. simpl. intuition congruence.
Qed.

Lemma find_app_fresh h l1 l2 :
  ~ In h (ids l1) -> find h (l1 ++ l2) = find h l2.
Proof.
  unfold find, ids. induction l1 as [|y l1 IH]; simpl; [reflexivity|].
  intros Hn. destruct (has_id h y) eqn:E.
  - apply has_id_true in E. tauto.
  - apply IH. tauto.
Qed.

Lemma find_here h x l : entry_id x = h -> find h (x :: l) = Some x.
Proof. intros E. unfold find. simpl. apply has_id_true in E. rewrite E. reflexivity. Qed.

Lemma find_mid h l1 x l2 :
  ~ In h (ids l1) -> entry_id x = h -> find h (l1 ++ x :: l2) = Some x.
Proof. intros. rewrite find_app_fresh by assumption. apply find_here. assumption. Qed.

Lemma find_in h c x : find h c = Some x -> In x c /\ entry_id x = h.
Proof.
  intros H. destruct (find_split _ _ _ H) as (l1 & l2 & -> & E & _).
  split; [apply in_elt|exact E].
Qed.

Lemma find_unique h c x :
  NoDup (ids c) -> In x c -> entry_id x = h -> find h c = Some x.
Proof.
  unfold ids. induction c as [|y c IH]; simpl; [tauto|].
  intros Hnd [->|Hin] E.
  - apply find_here, E.
  - inversion Hnd as [|? ? Hy Hc]; subst.
    unfold find. simpl. destruct (has_id (entry_id x) y) eqn:Ey.
    + apply has_id_true in Ey. exfalso. apply Hy. rewrite Ey. apply in_map, Hin.
    + apply IH; auto.
Qed.

Lemma erase_mid h l1 x l2 :
  ~ In h (ids l1) -> entry_id x = h -> erase h (l1 ++ x :: l2) = l1 ++ l2.
Proof.
  unfold ids. induction l1 as [|y l1 IH]; simpl; intros Hn E.
  - apply has_id_true in E. rewrite E. reflexivity.
  - destruct (has_id h y) eqn:Ey.
    + apply has_id_true in Ey. tauto.
    + f_equal. apply IH; tauto.
Qed.

Lemma update_mid h f l1 x l2 :
  ~ In h (ids l1) -> entry_id x = h ->
  update h f (l1 ++ x :: l2) = l1 ++ f x :: l2.
Proof.
  unfold ids. induction l1 as [|y l1 IH]; simpl; intros Hn E.
  - apply has_id_true in E. rewrite E. reflexivity.
  - destruct (has_id h y) eqn:Ey.
    + apply has_id_true in Ey. tauto.
    + f_equal. apply IH; tauto.
Qed.

Lemma erase_fresh h c : ~ In h (ids c) -> erase h c = c.
Proof.
  unfold ids. induction c as [|y c IH]; simpl; intros Hn; [reflexivity|].
  destruct (has_id h y) eqn:Ey.
  - apply has_id_true in Ey. tauto.
  - f_equal. apply IH. tauto.
Qed.

Lemma update_fresh h f c : ~ In h (ids c) -> update h f c = c.
Proof.
  unfold ids. induction c as [|y c IH]; simpl; intros Hn; [reflexivity|].
  destruct (has_id h y) eqn:Ey.
  - apply has_id_true in Ey. tauto.
  - f_equal. apply IH. tauto.
Qed.

Lemma filter_fresh h c : ~ In h (ids c) -> filter (has_id h) c = [].
Proof.
  unfold ids. induction c as [|y c IH]; simpl; intros Hn; [reflexivity|].
  destruct (has_id h y) eqn:Ey.
  - apply has_id_true in Ey. tauto.
  - apply IH. tauto.
Qed.

Lemma collides_nodup h c : NoDup (ids c) -> collides h c = false.
Proof.
  intros Hnd. unfold collides. apply Nat.ltb_ge.
  destruct (find h c) as [x|] eqn:F.
  - destruct (find_split _ _ _ F) as (l1 & l2 & -> & E & Hn).
    unfold ids in Hnd. rewrite map_app in Hnd. simpl in Hnd.
    apply NoDup_remove_2 in Hnd. rewrite E in Hnd.
    rewrite filter_app. simpl. apply has_id_true in E. rewrite E.
    rewrite !filter_fresh; [simpl; lia| |assumption].
    intros Hin. apply Hnd, in_or_app. right. exact Hin.
  - apply find_none in F. rewrite filter_fresh by assumption. simpl. lia.
Qed.

(** *** The time-stamp order *)

Lemma link_perm e c : Permutation (link e c) (e :: c).
Proof.
  induction c as [|x c IH]; simpl; [reflexivity|].
  destruct (timeStamp e <? timeStamp x)%Z; [reflexivity|].
  rewrite IH. apply perm_swap.
Qed.

Lemma link_ordered e c : time_ordered c -> time_ordered (link e c).
Proof.
  unfold time_ordered. induction c as [|x c IH]; simpl; intros Hs.
  - repeat constructor.
  - inversion Hs as [|? ? Hc Hx]; subst.
    destruct (timeStamp e <? timeStamp x)%Z eqn:E.
    + apply Z.ltb_lt in E. constructor; [assumption|].
      constructor; [unfold le_ts; lia|].
      eapply Forall_impl; [|exact Hx]. unfold le_ts. intros; lia.
    + apply Z.ltb_ge in E. constructor; [apply IH, Hc|].
      eapply Permutation_Forall; [symmetry; apply link_perm|].
      constructor; [exact E|exact Hx].
Qed.

Lemma ordered_app l1 l2 :
  time_ordered (l1 ++ l2) <->
  time_ordered l1 /\ time_ordered l2 /\
  (forall a b, In a l1 -> In b l2 -> le_ts a b).
Proof.
  unfold time_ordered. induction l1 as [|x l1 IH]; simpl.
  - split; [intros H; repeat split; [constructor|exact H|tauto]|tauto].
  - split.
    + intros H. inversion H as [|? ? Hs Hx]; subst.
      apply IH in Hs. destruct Hs as (H1 & H2 & H12).
      rewrite Forall_app in Hx. destruct Hx as [Hx1 Hx2].
      repeat split; [constructor; assumption|assumption|].
      intros a b [->|Ha] Hb; [|auto].
      rewrite Forall_forall in Hx2. auto.
    + intros (H1 & H2 & H12). inversion H1 as [|? ? Hs Hx]; subst.
      constructor.
      * apply IH. repeat split; auto.
      * rewrite Forall_app. split; [assumption|].
        rewrite Forall_forall. intros b Hb. apply H12; auto.
Qed.

Lemma erase_ordered h c : time_ordered c -> time_ordered (erase h c).
Proof.
  intros Hs. destruct (find h c) as [x|] eqn:F.
  - destruct (find_split _ _ _ F) as (l1 & l2 & -> & E & Hn).
    rewrite erase_mid by assumption.
    apply ordered_app in Hs. destruct Hs as (H1 & H2 & H12).
    inversion H2; subst. apply ordered_app. repeat split; auto.
    intros a b Ha Hb. apply H12; simpl; auto.
  - apply find_none in F. rewrite erase_fresh; assumption.
Qed.

Lemma in_place_ordered p h c :
  time_ordered c ->
  (forall t, p = Some t -> Forall (fun e => (t <= timeStamp e)%Z) c) ->
  in_place p h c = true.
Proof.
  unfold time_ordered. revert p. induction c as [|x c IH]; simpl; intros p Hs Hp.
  - reflexivity.
  - inversion Hs as [|? ? Hc Hx]; subst. destruct (has_id h x).
    + apply andb_true_intro. split.
      * destruct p as [t|]; [|reflexivity].
        specialize (Hp t eq_refl). inversion Hp; subst.
        apply negb_true_iff, Z.ltb_ge. assumption.
      * destruct c as [|y c]; [reflexivity|].
        inversion Hx; subst. apply negb_true_iff, Z.ltb_ge. assumption.
    + apply IH; [assumption|]. intros t [= <-]. exact Hx.
Qed.

Lemma in_place_inv h x l2 l1 p :
  ~ In h (ids l1) -> entry_id x = h ->
  in_place p h (l1 ++ x :: l2) = true ->
  time_ordered (l1 ++ l2) ->
  time_ordered (l1 ++ x :: l2) /\
  (forall t, p = Some t ->
     Forall (fun e => (t <= timeStamp e)%Z) (l1 ++ l2) -> (t <= timeStamp x)%Z).
Proof.
  unfold time_ordered, ids. revert p.
  induction l1 as [|y l1 IH]; simpl; intros p Hn E Hin Hs.
  - apply has_id_true in E. rewrite E in Hin.
    apply andb_prop in Hin. destruct Hin as [Hp Hr]. split.
    + constructor; [assumption|].
      destruct l2 as [|z l2]; [constructor|].
      apply negb_true_iff, Z.ltb_ge in Hr.
      inversion Hs as [|? ? _ Hz]; subst.
      constructor; [exact Hr|].
      eapply Forall_impl; [|exact Hz]. unfold le_ts in *. intros; lia.
    + intros t -> _. apply negb_true_iff, Z.ltb_ge in Hp. exact Hp.
  - destruct (has_id h y) eqn:Ey; [apply has_id_true in Ey; tauto|].
    inversion Hs as [|? ? Hc Hy]; subst.
    destruct (IH (Some (timeStamp y))) as [Ho Hb]; auto.
    assert (Hyx : (timeStamp y <= timeStamp x)%Z) by (apply Hb; [reflexivity|exact Hy]).
    split.
    + constructor; [assumption|].
      rewrite Forall_app in Hy |- *. destruct Hy as [Hy1 Hy2].
      split; [assumption|]. constructor; assumption.
    + intros t -> Ht. inversion Ht; subst. lia.
Qed.

Lemma relink_perm h c : Permutation (relink h c) c.
Proof.
  unfold relink. destruct (find h c) as [x|] eqn:F; [|reflexivity].
  destruct (in_place None h c); [reflexivity|].
  destruct (find_split _ _ _ F) as (l1 & l2 & -> & E & Hn).
  rewrite erase_mid by assumption. rewrite link_perm.
  apply Permutation_middle.
Qed.

Lemma relink_same h c : time_ordered c -> relink h c = c.
Proof.
  intros Hs. unfold relink. destruct (find h c); [|reflexivity].
  rewrite in_place_ordered; [reflexivity|assumption|discriminate].
Qed.

Lemma relink_ordered h c : time_ordered (erase h c) -> time_ordered (relink h c).
Proof.
  intros Hs. unfold relink. destruct (find h c) as [x|] eqn:F.
  - destruct (in_place None h c) eqn:P; [|apply link_ordered, Hs].
    destruct (find_split _ _ _ F) as (l1 & l2 & -> & E & Hn).
    rewrite erase_mid in Hs by assumption.
    eapply in_place_inv; eassumption.
  - apply find_none in F. rewrite erase_fresh in Hs; assumption.
Qed.

End IndexFacts.

Import IndexFacts.

(** ** Running the member functions *)

Ltac run :=
  unfold bind, get, modify_store, ret, throw, abort, undefined, LogPrint, LogPrintf;
  cbn [result store logged].

Lemma wrap_small n : n <= SIZE_MAX -> wrap n = n.
Proof. unfold wrap, SIZE_MAX. intros H. apply N.mod_small. lia. Qed.

Lemma with_same s :
  with_numOrphans (m_numOrphans s) (with_proofs (m_proofs s) s) = s.
Proof. destruct s. reflexivity. Qed.

Lemma decrementOrphans_0 s : decrementOrphans 0 s = mkRun (Returns tt) s [].
Proof. reflexivity. Qed.

Lemma decrementOrphans_1 s :
  1 <= m_numOrphans s <= SIZE_MAX ->
  decrementOrphans 1 s = mkRun (Returns tt) (with_numOrphans (m_numOrphans s - 1) s) [].
Proof.
  intros H. unfold decrementOrphans, bind, get, modify_store, throw. simpl.
  destruct (m_numOrphans s <? 1) eqn:E; [apply N.ltb_lt in E; lia|].
  simpl. rewrite wrap_small by lia. reflexivity.
Qed.

Lemma decrementOrphans_underflow n s :
  m_numOrphans s < n ->
  decrementOrphans n s = mkRun (Throws runtime_error) s [].
Proof.
  intros H. unfold decrementOrphans, bind, get, throw.
  destruct (n =? 0) eqn:E0; [apply N.eqb_eq in E0; lia|]. simpl.
  apply N.ltb_lt in H. rewrite H. reflexivity.
Qed.

Lemma evict_0 a c : evict a 0 c = c.
Proof. destruct c; reflexivity. Qed.

Lemma evict_keep a k e c : evictable a e = false -> evict a k (e :: c) = e :: evict a k c.
Proof. intros H. destruct k; simpl; [rewrite evict_0; reflexivity|rewrite H; reflexivity]. Qed.

Lemma evict_drop a k e c : evictable a e = true -> evict a (S k) (e :: c) = evict a k c.
Proof. intros H. simpl. rewrite H. reflexivity. Qed.

Lemma reap_run dont low todo : forall before ctr s,
  m_proofs s = before ++ todo ->
  ctr + m_numOrphans s <= SIZE_MAX ->
  let k := N.min (m_numOrphans s - low) (N.of_nat (count_evictable dont todo)) in
  reap dont low before todo ctr s =
  mkRun (Returns (ctr + k))
    (with_numOrphans (m_numOrphans s - k)
       (with_proofs (before ++ evict dont (N.to_nat k) todo) s)) [].
Proof.
  induction todo as [|e rest IH]; intros before ctr s Hp Hc k.
  - subst k. simpl. rewrite N.min_0_r, N.add_0_r, N.sub_0_r. simpl.
    rewrite <- Hp, with_same. reflexivity.
  - cbn [reap]. unfold bind at 1. unfold get. cbn [result store logged app].
    destruct (low <? m_numOrphans s) eqn:Elow.
    + apply N.ltb_lt in Elow.
      change (orphan e && negb (dont =? GetId (proof e))) with (evictable dont e).
      destruct (evictable dont e) eqn:Eev.
      * unfold bind, modify_store, get. cbn [result store logged].
        rewrite decrementOrphans_1 by (cbn [m_numOrphans with_proofs]; lia).
        cbn [result store logged].
        rewrite wrap_small by lia.
        rewrite IH; [|reflexivity|cbn [m_numOrphans with_proofs with_numOrphans]; lia].
        cbn [result store logged m_numOrphans with_numOrphans with_proofs app].
        assert (Ek : k = 1 + N.min (m_numOrphans s - 1 - low)
                                  (N.of_nat (count_evictable dont rest))).
        { subst k. unfold count_evictable. cbn [filter]. rewrite Eev. cbn [length]. lia. }
        set (k' := N.min (m_numOrphans s - 1 - low)
                         (N.of_nat (count_evictable dont rest))) in *.
        rewrite Ek.
        replace (N.to_nat (1 + k')) with (S (N.to_nat k')) by lia.
        rewrite evict_drop by assumption.
        f_equal; [f_equal; lia|].
        unfold with_numOrphans, with_proofs. fields. f_equal. lia.
      * rewrite IH; [|rewrite Hp, <- app_assoc; reflexivity|assumption].
        assert (Ek : N.min (m_numOrphans s - low) (N.of_nat (count_evictable dont rest)) = k).
        { subst k. unfold count_evictable. cbn [filter]. rewrite Eev. reflexivity. }
        rewrite Ek, evict_keep by assumption.
        rewrite <- app_assoc. reflexivity.
    + apply N.ltb_ge in Elow. unfold ret.
      assert (Ek : k = 0) by (subst k; lia).
      rewrite Ek, N.add_0_r, N.sub_0_r. simpl N.to_nat. rewrite evict_0.
      rewrite <- Hp, with_same. reflexivity.
Qed.

(** ** The records the sweep erases *)

Section Evict.

Variable a : DspId.

Lemma evict_nil k : evict a k [] = [].
Proof. destruct k; reflexivity. Qed.

Lemma evict_in k c e : In e (evict a k c) -> In e c.
Proof.
  revert k. induction c as [|x c IH]; intros k; [rewrite evict_nil; tauto|].
  destruct k; [rewrite evict_0; tauto|].
  simpl. destruct (evictable a x); simpl; intros H.
  - right. eapply IH, H.
  - destruct H as [->|H]; [tauto|]. right. eapply IH, H.
Qed.

Lemma evict_keeps k c e : In e c -> evictable a e = false -> In e (evict a k c).
Proof.
  revert k. induction c as [|x c IH]; intros k; [tauto|].
  intros [->|H] He.
  - rewrite evict_keep by assumption. left. reflexivity.
  - destruct k; [rewrite evict_0; right; assumption|].
    simpl. destruct (evictable a x); [apply IH; assumption|].
    right. apply IH; assumption.
Qed.

Lemma evict_app k l1 l2 :
  evict a k (l1 ++ l2) = evict a k l1 ++ evict a (k - count_evictable a l1) l2.
Proof.
  revert k. induction l1 as [|x l1 IH]; intros k.
  - rewrite evict_nil. simpl. f_equal. unfold count_evictable. simpl. lia.
  - destruct k.
    + rewrite !evict_0. reflexivity.
    + simpl. unfold count_evictable. cbn [filter].
      destruct (evictable a x) eqn:E.
      * rewrite IH. reflexivity.
      * rewrite IH. reflexivity.
Qed.

Lemma evict_forall (P : Entry -> Prop) k c : Forall P c -> Forall P (evict a k c).
Proof.
  rewrite !Forall_forall. intros H e He. apply H. eapply evict_in, He.
Qed.

Lemma evict_ordered k c : time_ordered c -> time_ordered (evict a k c).
Proof.
  unfold time_ordered. revert k. induction c as [|x c IH]; intros k Hs.
  - rewrite evict_nil. constructor.
  - destruct k; [rewrite evict_0; assumption|].
    inversion Hs as [|? ? Hc Hx]; subst. simpl.
    destruct (evictable a x); [apply IH, Hc|].
    constructor; [apply IH, Hc|]. apply evict_forall, Hx.
Qed.

Lemma evict_nodup k c : NoDup (ids c) -> NoDup (ids (evict a k c)).
Proof.
  unfold ids. revert k. induction c as [|x c IH]; intros k Hn.
  - rewrite evict_nil. constructor.
  - destruct k; [rewrite evict_0; assumption|].
    inversion Hn as [|? ? Hx Hc]; subst. simpl.
    destruct (evictable a x); [apply IH, Hc|].
    simpl. constructor; [|apply IH, Hc].
    intros Hin. apply Hx. apply in_map_iff in Hin. destruct Hin as (e & He & Hin).
    apply in_map_iff. exists e. split; [assumption|]. eapply evict_in, Hin.
Qed.

Lemma evict_find k c : Index.find a (evict a k c) = Index.find a c.
Proof.
  revert k. induction c as [|x c IH]; intros k; [rewrite evict_nil; reflexivity|].
  destruct k; [rewrite evict_0; reflexivity|].
  simpl. unfold evictable. unfold Index.find in *. simpl.
  unfold Index.has_id at 2. rewrite (N.eqb_sym (entry_id x) a).
  destruct (a =? entry_id x) eqn:E.
  - rewrite andb_false_r. simpl. unfold Index.has_id. rewrite N.eqb_sym, E. reflexivity.
  - destruct (orphan x); simpl.
    + apply IH.
    + unfold Index.has_id at 1. rewrite N.eqb_sym, E. apply IH.
Qed.

Lemma evict_first k c :
  filter (evictable a) (evict a k c) = skipn k (filter (evictable a) c).
Proof.
  revert k. induction c as [|x c IH]; intros k.
  - rewrite evict_nil. simpl. rewrite skipn_nil. reflexivity.
  - destruct k; [rewrite evict_0; reflexivity|].
    simpl. destruct (evictable a x) eqn:E; simpl.
    + apply IH.
    + rewrite E. apply IH.
Qed.

Lemma evict_others k c :
  filter (fun e => negb (evictable a e)) (evict a k c)
  = filter (fun e => negb (evictable a e)) c.
Proof.
  revert k. induction c as [|x c IH]; intros k.
  - rewrite evict_nil. reflexivity.
  - destruct k; [rewrite evict_0; reflexivity|].
    simpl. destruct (evictable a x) eqn:E; simpl.
    + apply IH.
    + rewrite E. simpl. f_equal. apply IH.
Qed.

Lemma evict_count_evictable k c :
  count_evictable a (evict a k c) = (count_evictable a c - k)%nat.
Proof. unfold count_evictable. rewrite evict_first. apply length_skipn. Qed.

Lemma evict_count_orphans k c :
  (count_orphans (evict a k c) + Nat.min k (count_evictable a c))%nat = count_orphans c.
Proof.
  unfold count_orphans, count_evictable. revert k.
  induction c as [|x c IH]; intros k.
  - rewrite evict_nil. simpl. lia.
  - destruct k; [rewrite evict_0; simpl; lia|].
    specialize (IH k) as IHk. specialize (IH (S k)) as IHS.
    destruct (evictable a x) eqn:E.
    + rewrite evict_drop by assumption. cbn [filter]. rewrite E.
      unfold evictable in E. apply andb_prop in E. destruct E as [Eo _].
      rewrite Eo. cbn [length]. lia.
    + rewrite evict_keep by assumption. cbn [filter]. rewrite E.
      destruct (orphan x); cbn [length]; lia.
Qed.

End Evict.

(** ** Writing through a reference *)

Lemma update_ids h f c : keeps_id f -> ids (Index.update h f c) = ids c.
Proof.
  intros Hf. unfold ids. induction c as [|x c IH]; simpl; [reflexivity|].
  destruct (Index.has_id h x); simpl; [rewrite Hf; reflexivity|f_equal; exact IH].
Qed.

Lemma update_length h f c : length (Index.update h f c) = length c.
Proof.
  induction c as [|x c IH]; simpl; [reflexivity|].
  destruct (Index.has_id h x); simpl; congruence.
Qed.

Lemma update_find h f c e :
  keeps_id f -> Index.find h c = Some e -> Index.find h (Index.update h f c) = Some (f e).
Proof.
  intros Hf F. destruct (find_split _ _ _ F) as (l1 & l2 & -> & E & Hn).
  rewrite update_mid by assumption. apply find_mid; [assumption|]. rewrite Hf. exact E.
Qed.

Lemma update_find_other h h' f c :
  keeps_id f -> h' <> h -> Index.find h' (Index.update h f c) = Index.find h' c.
Proof.
  intros Hf Hne. unfold Index.find. induction c as [|x c IH]; simpl; [reflexivity|].
  destruct (Index.has_id h x) eqn:E; simpl.
  - apply has_id_true in E.
    assert (E1 : Index.has_id h' (f x) = false) by (apply has_id_false; rewrite Hf; congruence).
    assert (E2 : Index.has_id h' x = false) by (apply has_id_false; congruence).
    rewrite E1, E2. reflexivity.
  - destruct (Index.has_id h' x); [reflexivity|exact IH].
Qed.

Lemma update_ordered h f c :
  keeps_time f -> time_ordered c -> time_ordered (Index.update h f c).
Proof.
  intros Hf. unfold time_ordered. induction c as [|x c IH]; simpl; intros Hs; [constructor|].
  inversion Hs as [|? ? Hc Hx]; subst.
  destruct (Index.has_id h x).
  - constructor; [assumption|]. eapply Forall_impl; [|exact Hx].
    unfold le_ts. intros e. rewrite Hf. tauto.
  - constructor; [apply IH, Hc|].
    clear - Hx Hf. induction c as [|y c IH]; simpl; [constructor|].
    inversion Hx; subst. destruct (Index.has_id h y).
    + constructor; [unfold le_ts in *; rewrite Hf; assumption|assumption].
    + constructor; [assumption|apply IH; assumption].
Qed.

Lemma update_erase h f c : keeps_id f -> Index.erase h (Index.update h f c) = Index.erase h c.
Proof.
  intros Hf. induction c as [|x c IH]; simpl; [reflexivity|].
  destruct (Index.has_id h x) eqn:E; simpl.
  - assert (E1 : Index.has_id h (f x) = true) by (apply has_id_true; rewrite Hf; apply has_id_true, E).
    rewrite E1. reflexivity.
  - rewrite E. f_equal. exact IH.
Qed.

Lemma update_forall (P : Entry -> Prop) h f c :
  (forall e, P e -> P (f e)) -> Forall P c -> Forall P (Index.update h f c).
Proof.
  intros Hf. induction c as [|x c IH]; simpl; intros H; [constructor|].
  inversion H; subst. destruct (Index.has_id h x); constructor; auto.
Qed.

Lemma update_update h f g c :
  keeps_id f ->
  Index.update h g (Index.update h f c) = Index.update h (fun e => g (f e)) c.
Proof.
  intros Hf. induction c as [|x c IH]; simpl; [reflexivity|].
  destruct (Index.has_id h x) eqn:E; simpl.
  - assert (E1 : Index.has_id h (f x) = true) by (apply has_id_true; rewrite Hf; apply has_id_true, E).
    rewrite E1. reflexivity.
  - rewrite E. f_equal. exact IH.
Qed.

Lemma count_orphans_app l1 l2 :
  count_orphans (l1 ++ l2) = (count_orphans l1 + count_orphans l2)%nat.
Proof. unfold count_orphans. rewrite filter_app, length_app. reflexivity. Qed.

Lemma count_orphans_cons x c :
  count_orphans (x :: c) = ((if orphan x then 1 else 0) + count_orphans c)%nat.
Proof. unfold count_orphans. simpl. destruct (orphan x); reflexivity. Qed.

Lemma count_orphans_le c : (count_orphans c <= length c)%nat.
Proof. unfold count_orphans. apply filter_length_le. Qed.

Lemma count_orphans_perm c c' : Permutation c c' -> count_orphans c = count_orphans c'.
Proof.
  intros H. unfold count_orphans. apply Permutation_length.
  induction H; simpl.
  - constructor.
  - destruct (orphan x); [constructor|]; assumption.
  - destruct (orphan x), (orphan y); try reflexivity. apply perm_swap.
  - etransitivity; eassumption.
Qed.

(** ** Running the sweep *)

Lemma checkOrphanLimit_run d s high :
  highWaterMark (m_maxOrphans s) = Some high ->
  m_numOrphans s <= SIZE_MAX ->
  checkOrphanLimit d s =
  mkRun (Returns tt) (sweep_spec d (m_maxOrphans s) high s)
    (if m_numOrphans s <=? high then []
     else [LogReaped (reaped d s) (m_numOrphans s - reaped d s) (m_maxOrphans s) high]).
Proof.
  intros Hh Hn. unfold checkOrphanLimit, sweep_spec.
  unfold bind at 1. unfold get at 1. cbn [result store logged]. rewrite Hh.
  rewrite N.ltb_antisym. destruct (m_numOrphans s <=? high); cbn [negb].
  - reflexivity.
  - unfold bind, get, LogPrint, LogPrintf. cbn [result store logged].
    rewrite (reap_run d (m_maxOrphans s) (m_proofs s) [] 0 s eq_refl) by lia.
    cbn [result store logged app]. fold (reaped d s).
    rewrite N.add_0_l. fields. reflexivity.
Qed.

Lemma incrementOrphans_0 d s : incrementOrphans 0 d s = mkRun (Returns tt) s [].
Proof. reflexivity. Qed.

Lemma incrementOrphans_1 d s high :
  highWaterMark (m_maxOrphans s) = Some high ->
  m_numOrphans s + 1 <= SIZE_MAX ->
  let s' := with_numOrphans (m_numOrphans s + 1) s in
  incrementOrphans 1 d s =
  mkRun (Returns tt) (sweep_spec d (m_maxOrphans s) high s')
    (if m_numOrphans s + 1 <=? high then []
     else [LogReaped (reaped d s') (m_numOrphans s + 1 - reaped d s') (m_maxOrphans s) high]).
Proof.
  intros Hh Hn s'. unfold incrementOrphans. cbn [N.eqb].
  unfold bind, modify_store. cbn [result store logged].
  rewrite wrap_small by assumption. fold s'.
  rewrite (checkOrphanLimit_run d s' high Hh) by (subst s'; fields; lia).
  reflexivity.
Qed.

(** ** Running [modify] *)

Lemma modify_run it modifier rollback s s1 lg e :
  modifier s = mkRun (Returns tt) s1 lg ->
  Index.find it (m_proofs s1) = Some e ->
  Index.collides it (m_proofs s1) = false ->
  modify it modifier rollback s =
  mkRun (Returns true) (with_proofs (Index.relink it (m_proofs s1)) s1) lg.
Proof.
  intros Hm Hf Hc. unfold modify, deref, on_throw. run.
  rewrite Hm. cbn [result store logged]. rewrite Hf. cbn [result store logged].
  rewrite Hc. cbn [result store logged]. rewrite !app_nil_r. reflexivity.
Qed.

(** When the identity index finds a second record with the key, the
    rollback functor runs. *)
Lemma modify_collision it modifier s s1 lg e :
  modifier s = mkRun (Returns tt) s1 lg ->
  Index.find it (m_proofs s1) = Some e ->
  Index.collides it (m_proofs s1) = true ->
  modify it modifier ModFastFail s =
  mkRun Aborts s1 (lg ++ [LogModifyFailed (entry_id e)]).
Proof.
  intros Hm Hf Hc. unfold modify, deref, on_throw, ModFastFail. run.
  rewrite Hm. cbn [result store logged]. rewrite Hf. cbn [result store logged].
  rewrite Hc. cbn [result store logged].
  rewrite !app_nil_r. reflexivity.
Qed.

Lemma set_orphan_keeps_id b : keeps_id (set_orphan b).
Proof. intros e. reflexivity. Qed.
Lemma set_nodeId_keeps_id n : keeps_id (set_nodeId n).
Proof. intros e. reflexivity. Qed.
Lemma set_timeStamp_keeps_id t : keeps_id (set_timeStamp t).
Proof. intros e. reflexivity. Qed.
Lemma set_orphan_keeps_time b : keeps_time (set_orphan b).
Proof. intros e. reflexivity. Qed.

(** Clearing or setting the orphan flag of a stored record. *)
Lemma flag_run h b s e :
  NoDup (ids (m_proofs s)) -> time_ordered (m_proofs s) ->
  Index.find h (m_proofs s) = Some e ->
  modify h (assign h (set_orphan b)) ModFastFail s =
  mkRun (Returns true) (with_proofs (Index.update h (set_orphan b) (m_proofs s)) s) [].
Proof.
  intros Hnd Hs Hf.
  erewrite modify_run; [| reflexivity | |].
  - fields. rewrite relink_same; [reflexivity|].
    apply update_ordered; [apply set_orphan_keeps_time|assumption].
  - fields. apply update_find; [apply set_orphan_keeps_id|eassumption].
  - fields. apply collides_nodup. rewrite update_ids; [assumption|apply set_orphan_keeps_id].
Qed.

Lemma count_orphans_update h b c e :
  NoDup (ids c) -> Index.find h c = Some e ->
  (count_orphans (Index.update h (set_orphan b) c) + (if orphan e then 1 else 0)
   = count_orphans c + (if b then 1 else 0))%nat.
Proof.
  intros _ Hf. destruct (find_split _ _ _ Hf) as (l1 & l2 & -> & E & Hn).
  rewrite update_mid by assumption.
  rewrite !count_orphans_app, !count_orphans_cons. cbn [set_orphan orphan].
  destruct b, (orphan e); lia.
Qed.

Lemma count_orphans_erase h c e :
  Index.find h c = Some e ->
  (count_orphans (Index.erase h c) + (if orphan e then 1 else 0) = count_orphans c)%nat.
Proof.
  intros Hf. destruct (find_split _ _ _ Hf) as (l1 & l2 & -> & E & Hn).
  rewrite erase_mid by assumption.
  rewrite !count_orphans_app, !count_orphans_cons. lia.
Qed.

Lemma count_orphans_pos c e : In e c -> orphan e = true -> (1 <= count_orphans c)%nat.
Proof.
  intros Hin Ho. apply in_split in Hin. destruct Hin as (l1 & l2 & ->).
  rewrite count_orphans_app, count_orphans_cons, Ho. lia.
Qed.

(** ** Consistency of the store *)

Lemma consistent_ext s s' :
  m_proofs s' = m_proofs s -> m_numOrphans s' = m_numOrphans s ->
  consistent s -> consistent s'.
Proof.
  intros Hp Hn [H1 H2 H3 H4 H5]. unfold size in *.
  constructor; unfold size; rewrite ?Hp, ?Hn; assumption.
Qed.

Lemma consistent_counter_fits s : consistent s -> m_numOrphans s <= SIZE_MAX.
Proof.
  intros [_ H2 H3 _ _]. unfold size, Index.size in H3.
  assert (H := count_orphans_le (m_proofs s)). lia.
Qed.

Lemma consistent_construct cfg : consistent (construct cfg).
Proof.
  constructor; simpl; try constructor. unfold size, Index.size, SIZE_MAX. simpl. lia.
Qed.

Lemma consistent_clear s : consistent (store (clear s)).
Proof.
  constructor; simpl; try constructor. unfold size, Index.size, SIZE_MAX. simpl. lia.
Qed.

Lemma consistent_unflag s h e :
  consistent s -> Index.find h (m_proofs s) = Some e -> orphan e = true ->
  consistent (with_numOrphans (m_numOrphans s - 1)
                (with_proofs (Index.update h (set_orphan false) (m_proofs s)) s)).
Proof.
  intros [H1 H2 H3 H4 H5] Hf Ho. constructor; fields; unfold size in *; fields.
  - rewrite update_ids; [assumption|apply set_orphan_keeps_id].
  - assert (Hc := count_orphans_update h false _ _ H1 Hf). rewrite Ho in Hc. lia.
  - unfold Index.size in *. rewrite update_length. assumption.
  - apply update_ordered; [apply set_orphan_keeps_time|assumption].
  - apply update_forall; [|assumption]. intros x Hx. exact Hx.
Qed.

Lemma link_length e c : length (Index.link e c) = S (length c).
Proof. rewrite (Permutation_length (link_perm e c)). reflexivity. Qed.

Lemma consistent_link s dsp :
  consistent s -> has_room s -> isEmpty dsp = false ->
  Index.find (GetId dsp) (m_proofs s) = None ->
  consistent (with_proofs (Index.link (new_entry dsp) (m_proofs s)) s).
Proof.
  intros [H1 H2 H3 H4 H5] Hr He Hf. unfold has_room, size, Index.size in *.
  assert (Hp := link_perm (new_entry dsp) (m_proofs s)).
  constructor; fields; unfold size, Index.size; fields.
  - unfold ids. eapply Permutation_NoDup; [apply Permutation_map; symmetry; exact Hp|].
    simpl. constructor; [|exact H1]. apply find_none in Hf. exact Hf.
  - rewrite (count_orphans_perm _ _ Hp), count_orphans_cons. simpl. exact H2.
  - rewrite link_length. lia.
  - apply link_ordered, H4.
  - eapply Permutation_Forall; [symmetry; exact Hp|]. constructor; [exact He|exact H5].
Qed.

Lemma erase_in h c e : In e (Index.erase h c) -> In e c.
Proof.
  induction c as [|x c IH]; simpl; [tauto|].
  destruct (Index.has_id h x); simpl; [tauto|]. intros [->|H]; auto.
Qed.

Lemma erase_length h c e :
  Index.find h c = Some e -> S (length (Index.erase h c)) = length c.
Proof.
  intros Hf. destruct (find_split _ _ _ Hf) as (l1 & l2 & -> & E & Hn).
  rewrite erase_mid by assumption. rewrite !length_app. simpl. lia.
Qed.

Lemma erase_nodup h c : NoDup (ids c) -> NoDup (ids (Index.erase h c)).
Proof.
  unfold ids. induction c as [|x c IH]; simpl; intros Hn; [constructor|].
  inversion Hn as [|? ? Hx Hc]; subst.
  destruct (Index.has_id h x); [assumption|]. simpl. constructor; [|apply IH, Hc].
  intros Hin. apply Hx. apply in_map_iff in Hin. destruct Hin as (e & He & Hin).
  apply in_map_iff. exists e. split; [assumption|]. eapply erase_in, Hin.
Qed.

Lemma consistent_erase s h e :
  consistent s -> Index.find h (m_proofs s) = Some e ->
  consistent (with_numOrphans (m_numOrphans s - size_t_of_bool (orphan e))
                (with_proofs (Index.erase h (m_proofs s)) s)).
Proof.
  intros [H1 H2 H3 H4 H5] Hf. unfold size, Index.size in *.
  constructor; fields; unfold size, Index.size; fields.
  - apply erase_nodup, H1.
  - assert (Hc := count_orphans_erase h _ _ Hf). destruct (orphan e); simpl; lia.
  - assert (Hl := erase_length h _ _ Hf). lia.
  - apply erase_ordered, H4.
  - rewrite Forall_forall in *. intros x Hx. apply H5. eapply erase_in, Hx.
Qed.

(** ** [add] *)

Lemma add_empty dsp s :
  isEmpty dsp = true -> add dsp s = mkRun (Throws invalid_argument) s [].
Proof. intros H. unfold add. rewrite H. reflexivity. Qed.

Lemma add_known_plain dsp s it :
  isEmpty dsp = false -> Index.find (GetId dsp) (m_proofs s) = Some it ->
  orphan it = false -> add dsp s = mkRun (Returns false) s [].
Proof.
  intros He Hf Ho. unfold add. rewrite He. run. rewrite Hf. cbn [result store logged].
  rewrite Ho. reflexivity.
Qed.

Lemma add_known_orphan dsp s it :
  consistent s ->
  isEmpty dsp = false -> Index.find (GetId dsp) (m_proofs s) = Some it ->
  orphan it = true ->
  add dsp s =
  mkRun (Returns false)
    (with_numOrphans (m_numOrphans s - 1)
       (with_proofs (Index.update (GetId dsp) (set_orphan false) (m_proofs s)) s)) [].
Proof.
  intros Hc He Hf Ho. assert (Hfit := consistent_counter_fits _ Hc).
  destruct Hc as [H1 H2 H3 H4 H5].
  assert (Hpos : 1 <= m_numOrphans s).
  { destruct (find_in _ _ _ Hf) as [Hin _].
    assert (Hp := count_orphans_pos _ _ Hin Ho). lia. }
  unfold add. rewrite He. run. rewrite Hf, Ho. run.
  rewrite decrementOrphans_1 by lia. cbn [result store logged].
  rewrite (flag_run (GetId dsp) false _ it); fields; try assumption.
  reflexivity.
Qed.

Lemma add_new dsp s :
  isEmpty dsp = false -> Index.find (GetId dsp) (m_proofs s) = None ->
  add dsp s =
  mkRun (Returns true) (with_proofs (Index.link (new_entry dsp) (m_proofs s)) s) [].
Proof.
  intros He Hf. unfold add. rewrite He. run. rewrite Hf. cbn [result store logged].
  unfold Index.emplace. change (entry_id (new_entry dsp)) with (GetId dsp).
  rewrite Hf. reflexivity.
Qed.

(** After [add] the record is there and is not an orphan. *)
Lemma add_post dsp s :
  consistent s ->
  (Index.find (GetId dsp) (m_proofs s) = None -> has_room s) ->
  isEmpty dsp = false ->
  exists b s1 e1,
    add dsp s = mkRun (Returns b) s1 [] /\
    consistent s1 /\
    Index.find (GetId dsp) (m_proofs s1) = Some e1 /\ orphan e1 = false /\
    m_maxOrphans s1 = m_maxOrphans s /\
    m_recentRejects s1 = m_recentRejects s /\
    (forall h, h <> GetId dsp -> Index.find h (m_proofs s1) = Index.find h (m_proofs s)) /\
    match Index.find (GetId dsp) (m_proofs s) with
    | Some e0 => e1 = set_orphan false e0 /\ b = false
    | None => e1 = new_entry dsp /\ b = true
    end.
Proof.
  intros Hc Hr He.
  destruct (Index.find (GetId dsp) (m_proofs s)) as [it|] eqn:Hf.
  - destruct (orphan it) eqn:Ho.
    + eexists _, _, _. split; [apply (add_known_orphan dsp s it); assumption|].
      split; [apply consistent_unflag with (e := it); assumption|]. fields.
      split; [apply update_find; [apply set_orphan_keeps_id|exact Hf]|].
      repeat split. intros h Hne. apply update_find_other; [apply set_orphan_keeps_id|exact Hne].
    + exists false, s, it. split; [apply (add_known_plain dsp s it); assumption|].
      split; [exact Hc|]. repeat split; auto.
      destruct it. cbn in Ho. subst. reflexivity.
  - specialize (Hr eq_refl).
    eexists _, _, _. split; [apply add_new; assumption|].
    split; [apply consistent_link; assumption|]. fields.
    assert (Hp := link_perm (new_entry dsp) (m_proofs s)).
    split.
    + apply find_unique.
      * destruct (consistent_link s dsp Hc Hr He Hf) as [H1 _ _ _ _]. exact H1.
      * eapply Permutation_in; [symmetry; exact Hp|]. left. reflexivity.
      * reflexivity.
    + repeat split. intros h Hne.
      destruct (consistent_link s dsp Hc Hr He Hf) as [H1 _ _ _ _]. fields.
      destruct Hc as [H0 _ _ _ _].
      destruct (Index.find h (m_proofs s)) as [x|] eqn:Hx.
      * apply find_unique; [exact H1| |apply (find_in _ _ _ Hx)].
        eapply Permutation_in; [symmetry; exact Hp|]. right. apply (find_in _ _ _ Hx).
      * apply find_none. apply find_none in Hx. intros Hin. apply Hx.
        unfold ids in *. apply in_map_iff in Hin. destruct Hin as (y & Hy & Hin).
        apply (Permutation_in _ Hp) in Hin. destruct Hin as [<-|Hin].
        -- exfalso. apply Hne. symmetry. exact Hy.
        -- apply in_map_iff. exists y. tauto.
Qed.

(** ** [addOrphan] *)

Lemma bind_returns {A B} (m : M A) (k : A -> M B) s a s' lg :
  m s = mkRun (Returns a) s' lg ->
  bind m k s = mkRun (result (k a s')) (store (k a s')) (lg ++ logged (k a s')).
Proof. intros H. unfold bind. rewrite H. reflexivity. Qed.

Lemma deref_run h s e :
  Index.find h (m_proofs s) = Some e -> deref h s = mkRun (Returns e) s [].
Proof. intros H. unfold deref. run. rewrite H. reflexivity. Qed.

Lemma update_same h c : Index.update h (fun e => e) c = c.
Proof.
  induction c as [|x c IH]; simpl; [reflexivity|].
  destruct (Index.has_id h x); [reflexivity|f_equal; exact IH].
Qed.

Lemma update_ext_at h f g c e :
  Index.find h c = Some e -> f e = g e -> Index.update h f c = Index.update h g c.
Proof.
  intros Hf E. destruct (find_split _ _ _ Hf) as (l1 & l2 & -> & Hi & Hn).
  rewrite !update_mid by assumption. rewrite E. reflexivity.
Qed.

Lemma adopt_keeps_id peer now : keeps_id (adopt peer now).
Proof. intros e. reflexivity. Qed.

Lemma with_proofs_same s : with_proofs (m_proofs s) s = s.
Proof. destruct s. reflexivity. Qed.

(** The two conditional assignments amount to [adopt]. *)
Lemma adopt_steps h peer now s e :
  Index.find h (m_proofs s) = Some e ->
  let c1 := if (nodeId e <? 0)%Z && (-1 <? peer)%Z
            then Index.update h (set_nodeId peer) (m_proofs s) else m_proofs s in
  let c2 := if (timeStamp e <? 0)%Z
            then Index.update h (set_timeStamp now) c1 else c1 in
  c2 = Index.update h (adopt peer now) (m_proofs s) /\
  Index.find h c1 =
    Some (if (nodeId e <? 0)%Z && (-1 <? peer)%Z then set_nodeId peer e else e).
Proof.
  intros Hf c1 c2. subst c1 c2. unfold adopt.
  destruct ((nodeId e <? 0)%Z && (-1 <? peer)%Z) eqn:E1;
  destruct (timeStamp e <? 0)%Z eqn:E2; split;
  try (apply update_find; [apply set_nodeId_keeps_id|exact Hf]); try exact Hf.
  - rewrite update_update by apply set_nodeId_keeps_id.
    apply update_ext_at with (e := e); [exact Hf|].
    rewrite E1, E2. reflexivity.
  - apply update_ext_at with (e := e); [exact Hf|].
    rewrite E1, E2. reflexivity.
  - apply update_ext_at with (e := e); [exact Hf|].
    rewrite E1, E2. reflexivity.
  - rewrite <- (update_same h (m_proofs s)) at 1.
    apply update_ext_at with (e := e); [exact Hf|].
    rewrite E1, E2. destruct e. reflexivity.
Qed.

Lemma mark_orphan_run h peer now s e high :
  Index.find h (m_proofs s) = Some e -> orphan e = false ->
  highWaterMark (m_maxOrphans s) = Some high ->
  m_numOrphans s + 1 <= SIZE_MAX ->
  let s2 := with_numOrphans (m_numOrphans s + 1)
              (with_proofs (Index.update h (adopt peer now) (m_proofs s)) s) in
  let s3 := sweep_spec h (m_maxOrphans s) high s2 in
  mark_orphan h peer now s =
  mkRun (Returns tt)
    (with_proofs (Index.update h (set_orphan true) (m_proofs s3)) s3)
    (if m_numOrphans s + 1 <=? high then []
     else [LogReaped (reaped h s2) (m_numOrphans s + 1 - reaped h s2) (m_maxOrphans s) high]).
Proof.
  intros Hf Ho Hh Hn s2 s3.
  destruct (adopt_steps h peer now s e Hf) as [Hc2 Hc1].
  set (c1 := if (nodeId e <? 0)%Z && (-1 <? peer)%Z
             then Index.update h (set_nodeId peer) (m_proofs s) else m_proofs s) in *.
  set (c2 := if (timeStamp e <? 0)%Z
             then Index.update h (set_timeStamp now) c1 else c1) in *.
  set (e1 := if (nodeId e <? 0)%Z && (-1 <? peer)%Z then set_nodeId peer e else e) in *.
  assert (Ht1 : timeStamp e1 = timeStamp e) by (subst e1; destruct (_ && _); reflexivity).
  assert (Ho1 : orphan e1 = false) by (subst e1; destruct (_ && _); exact Ho).
  assert (Hf2 : exists e2, Index.find h c2 = Some e2 /\ orphan e2 = false).
  { rewrite Hc2. eexists. split; [apply update_find; [apply adopt_keeps_id|exact Hf]|exact Ho]. }
  destruct Hf2 as (e2 & Hf2 & Ho2).
  unfold mark_orphan.
  erewrite bind_returns; [|apply deref_run; exact Hf].
  assert (S1 : (if (nodeId e <? 0)%Z && (-1 <? peer)%Z
                then assign h (set_nodeId peer) else ret tt) s
               = mkRun (Returns tt) (with_proofs c1 s) []).
  { subst c1. destruct (_ && _); [reflexivity|]. unfold ret. rewrite with_proofs_same. reflexivity. }
  erewrite bind_returns; [|exact S1].
  erewrite bind_returns; [|apply deref_run; fields; exact Hc1].
  rewrite Ht1.
  assert (S2 : (if (timeStamp e <? 0)%Z
                then assign h (set_timeStamp now) else ret tt) (with_proofs c1 s)
               = mkRun (Returns tt) (with_proofs c2 s) []).
  { subst c2. destruct (timeStamp e <? 0)%Z; [reflexivity|]. reflexivity. }
  erewrite bind_returns; [|exact S2].
  erewrite bind_returns; [|apply deref_run; fields; exact Hf2].
  rewrite Ho2. cbn [negb size_t_of_bool].
  erewrite bind_returns;
    [|apply incrementOrphans_1 with (high := high); fields; assumption].
  fields. cbn [app]. rewrite Hc2. fold s2. fold s3.
  unfold assign, modify_store. cbn [result store logged]. rewrite app_nil_r.
  reflexivity.
Qed.

(** ** What the sweep leaves *)

Lemma sweep_spec_shape h low high s :
  exists k : nat,
    (k <= count_evictable h (m_proofs s))%nat /\
    N.of_nat k <= m_numOrphans s - low /\
    (m_numOrphans s <= high -> k = 0%nat) /\
    (high < m_numOrphans s ->
     N.of_nat k = N.min (m_numOrphans s - low) (N.of_nat (count_evictable h (m_proofs s)))) /\
    sweep_spec h low high s =
    with_numOrphans (m_numOrphans s - N.of_nat k) (with_proofs (evict h k (m_proofs s)) s).
Proof.
  unfold sweep_spec. destruct (m_numOrphans s <=? high) eqn:E.
  - apply N.leb_le in E. exists 0%nat. repeat split; try lia.
    rewrite evict_0, N.sub_0_r, with_same. reflexivity.
  - apply N.leb_gt in E.
    set (k := N.min (m_numOrphans s - low) (N.of_nat (count_evictable h (m_proofs s)))).
    exists (N.to_nat k). rewrite N2Nat.id. repeat split; try lia.
Qed.

Lemma evict_length a k c : (length (evict a k c) <= length c)%nat.
Proof.
  revert k. induction c as [|x c IH]; intros k; [rewrite evict_nil; lia|].
  destruct k; [rewrite evict_0; lia|]. simpl.
  destruct (evictable a x); simpl; [specialize (IH k)|specialize (IH (S k))]; lia.
Qed.

Lemma evictable_other h c :
  ~ In h (ids c) -> filter (evictable h) c = filter orphan c.
Proof.
  unfold ids. induction c as [|x c IH]; simpl; intros Hn; [reflexivity|].
  unfold evictable at 1.
  assert (E : (h =? entry_id x) = false) by (apply N.eqb_neq; intros ->; tauto).
  rewrite E, andb_true_r. rewrite IH by tauto. reflexivity.
Qed.

Lemma count_evictable_protected h c e :
  NoDup (ids c) -> Index.find h c = Some e -> orphan e = false ->
  count_evictable h c = count_orphans c.
Proof.
  intros Hnd Hf Ho. destruct (find_split _ _ _ Hf) as (l1 & l2 & -> & E & Hn).
  unfold ids in Hnd. rewrite map_app in Hnd. simpl in Hnd.
  apply NoDup_remove_2 in Hnd. rewrite E in Hnd.
  unfold count_evictable, count_orphans. rewrite !filter_app. cbn [filter].
  unfold evictable at 2. rewrite Ho. cbn [andb].
  rewrite !evictable_other; [reflexivity| |assumption].
  intros Hin. apply Hnd, in_or_app. right. exact Hin.
Qed.

Lemma count_orphans_update_keep h f c :
  (forall e, orphan (f e) = orphan e) ->
  count_orphans (Index.update h f c) = count_orphans c.
Proof.
  intros Hf. induction c as [|x c IH]; simpl; [reflexivity|].
  destruct (Index.has_id h x); rewrite !count_orphans_cons; [rewrite Hf; reflexivity|].
  rewrite IH. reflexivity.
Qed.

Lemma evictable_protected h e : entry_id e = h -> evictable h e = false.
Proof.
  intros E. unfold evictable. rewrite E, N.eqb_refl. apply andb_false_r.
Qed.

Lemma erase_evict_ordered h k c :
  time_ordered (Index.erase h c) -> time_ordered (Index.erase h (evict h k c)).
Proof.
  intros Hs. destruct (Index.find h c) as [x|] eqn:Hf.
  - destruct (find_split _ _ _ Hf) as (l1 & l2 & -> & E & Hn).
    rewrite erase_mid in Hs by assumption.
    rewrite evict_app, evict_keep by (apply evictable_protected, E).
    rewrite erase_mid; [| |exact E].
    + apply ordered_app in Hs. destruct Hs as (H1 & H2 & H12).
      apply ordered_app. repeat split; try apply evict_ordered; try assumption.
      intros a b Ha Hb. apply H12; eapply evict_in; eassumption.
    + intros Hin. apply Hn. unfold ids in *. apply in_map_iff in Hin.
      destruct Hin as (y & Hy & Hin). apply in_map_iff. exists y.
      split; [assumption|]. eapply evict_in, Hin.
  - assert (Hf' : Index.find h (evict h k c) = None) by (rewrite evict_find; exact Hf).
    apply find_none in Hf, Hf'. rewrite erase_fresh in * by assumption.
    apply evict_ordered, Hs.
Qed.

Lemma relink_length h c : length (Index.relink h c) = length c.
Proof. apply Permutation_length, relink_perm. Qed.

Lemma consistent_mark_orphan h peer now high s e :
  consistent s -> Index.find h (m_proofs s) = Some e -> orphan e = false ->
  consistent (mark_orphan_spec h peer now high s).
Proof.
  intros [H1 H2 H3 H4 H5] Hf Ho. unfold mark_orphan_spec. rewrite Hf, Ho.
  set (c2 := Index.update h (adopt peer now) (m_proofs s)).
  set (s2 := with_numOrphans (m_numOrphans s + 1) (with_proofs c2 s)).
  destruct (sweep_spec_shape h (m_maxOrphans s) high s2) as (k & Hk & _ & _ & _ & ->).
  subst s2. fields.
  assert (Hid2 : ids c2 = ids (m_proofs s)) by (apply update_ids, adopt_keeps_id).
  assert (Hnd2 : NoDup (ids c2)) by (rewrite Hid2; exact H1).
  assert (Hf2 : Index.find h c2 = Some (adopt peer now e))
    by (apply update_find; [apply adopt_keeps_id|exact Hf]).
  assert (Hce : count_evictable h c2 = count_orphans c2)
    by (apply count_evictable_protected with (e := adopt peer now e); assumption).
  assert (Hco : count_orphans c2 = count_orphans (m_proofs s))
    by (apply count_orphans_update_keep; reflexivity).
  set (c3 := evict h k c2) in *.
  assert (Hf3 : Index.find h c3 = Some (adopt peer now e))
    by (subst c3; rewrite evict_find; exact Hf2).
  assert (Hnd3 : NoDup (ids c3)) by (apply evict_nodup, Hnd2).
  set (c4 := Index.update h (set_orphan true) c3).
  assert (Hp := relink_perm h c4).
  constructor; fields; unfold size, Index.size in *; fields.
  - unfold ids. eapply Permutation_NoDup; [apply Permutation_map; symmetry; exact Hp|].
    fold (ids c4). subst c4. rewrite update_ids by apply set_orphan_keeps_id. exact Hnd3.
  - rewrite (count_orphans_perm _ _ Hp).
    assert (Hu := count_orphans_update h true c3 _ Hnd3 Hf3).
    assert (He := evict_count_orphans h k c2). fold c3 in He.
    cbn [adopt orphan] in Hu. rewrite Ho in Hu. fold c4 in Hu. lia.
  - rewrite relink_length. subst c4. rewrite update_length.
    assert (Hl := evict_length h k c2). fold c3 in Hl.
    subst c2. rewrite update_length in Hl. lia.
  - apply relink_ordered. subst c4. rewrite update_erase by apply set_orphan_keeps_id.
    apply erase_evict_ordered. subst c2. rewrite update_erase by apply adopt_keeps_id.
    apply erase_ordered, H4.
  - eapply Permutation_Forall; [symmetry; exact Hp|]. subst c4.
    apply update_forall; [intros x Hx; exact Hx|]. apply evict_forall.
    apply update_forall; [intros x Hx; exact Hx|]. exact H5.
Qed.

Lemma addOrphan_run dsp peer now s high :
  consistent s ->
  (Index.find (GetId dsp) (m_proofs s) = None -> has_room s) ->
  isEmpty dsp = false ->
  highWaterMark (m_maxOrphans s) = Some high ->
  exists lg,
    addOrphan dsp peer now s =
    mkRun (Returns tt) (mark_orphan_spec (GetId dsp) peer now high (store (add dsp s))) lg /\
    (m_numOrphans (store (add dsp s)) + 1 <= high -> lg = []) /\
    (high < m_numOrphans (store (add dsp s)) + 1 -> lg <> []).
Proof.
  intros Hc Hr He Hh.
  destruct (add_post dsp s Hc Hr He) as (b & s1 & e1 & Ha & Hc1 & Hf1 & Ho1 & Hm1 & _).
  rewrite Ha. cbn [store].
  assert (Hfit : m_numOrphans s1 + 1 <= SIZE_MAX).
  { destruct Hc1 as [_ H2 H3 _ _]. unfold size, Index.size in H3.
    destruct (find_split _ _ _ Hf1) as (l1 & l2 & Hl & _ & _).
    rewrite Hl in H2, H3. rewrite count_orphans_app, count_orphans_cons, Ho1 in H2.
    rewrite length_app in H3. simpl in H3.
    assert (G1 := count_orphans_le l1). assert (G2 := count_orphans_le l2). lia. }
  rewrite <- Hm1 in Hh.
  assert (Hrun := mark_orphan_run (GetId dsp) peer now s1 e1 high Hf1 Ho1 Hh Hfit).
  cbv zeta in Hrun.
  set (s2 := with_numOrphans (m_numOrphans s1 + 1)
               (with_proofs (Index.update (GetId dsp) (adopt peer now) (m_proofs s1)) s1)) in *.
  set (s3 := sweep_spec (GetId dsp) (m_maxOrphans s1) high s2) in *.
  destruct (sweep_spec_shape (GetId dsp) (m_maxOrphans s1) high s2) as (k & _ & _ & _ & _ & Hs3).
  fold s3 in Hs3.
  assert (Hp3 : m_proofs s3 = evict (GetId dsp) k (Index.update (GetId dsp) (adopt peer now) (m_proofs s1)))
    by (rewrite Hs3; reflexivity).
  assert (Hf3 : Index.find (GetId dsp) (m_proofs s3) = Some (adopt peer now e1)).
  { rewrite Hp3, evict_find. apply update_find; [apply adopt_keeps_id|exact Hf1]. }
  eexists. split; [|split].
  - unfold addOrphan, bind, get, ret.
    rewrite Ha. cbn [result store logged]. rewrite Hf1.
    rewrite (modify_run _ _ ModFastFail _ _ _ (set_orphan true (adopt peer now e1)) Hrun).
    + cbn [result store logged]. fields.
      unfold mark_orphan_spec. rewrite Hf1, Ho1. fold s2. fold s3. reflexivity.
    + fields. apply update_find; [apply set_orphan_keeps_id|exact Hf3].
    + fields. apply collides_nodup. rewrite update_ids by apply set_orphan_keeps_id.
      rewrite Hp3. apply evict_nodup. rewrite update_ids by apply adopt_keeps_id.
      destruct Hc1 as [H1 _ _ _ _]. exact H1.
  - intros Hle. apply N.leb_le in Hle. rewrite Hle. reflexivity.
  - intros Hlt. apply N.leb_gt in Hlt. rewrite Hlt. discriminate.
Qed.

(** ** [claimOrphan], [remove] *)

Lemma orphan_counted s h e :
  consistent s -> Index.find h (m_proofs s) = Some e -> orphan e = true ->
  1 <= m_numOrphans s <= SIZE_MAX.
Proof.
  intros Hc Hf Ho. split; [|apply consistent_counter_fits, Hc].
  destruct Hc as [_ H2 _ _ _]. destruct (find_in _ _ _ Hf) as [Hin _].
  assert (Hp := count_orphans_pos _ _ Hin Ho). lia.
Qed.

Lemma claimOrphan_absent h s :
  Index.find h (m_proofs s) = None -> claimOrphan h s = mkRun (Returns tt) s [].
Proof. intros Hf. unfold claimOrphan. run. rewrite Hf. reflexivity. Qed.

Lemma claimOrphan_plain h s it :
  Index.find h (m_proofs s) = Some it -> orphan it = false ->
  claimOrphan h s = mkRun (Returns tt) s [].
Proof. intros Hf Ho. unfold claimOrphan. run. rewrite Hf, Ho. reflexivity. Qed.

Lemma claimOrphan_orphan h s it :
  consistent s -> Index.find h (m_proofs s) = Some it -> orphan it = true ->
  claimOrphan h s =
  mkRun (Returns tt)
    (with_numOrphans (m_numOrphans s - 1)
       (with_proofs (Index.update h (set_orphan false) (m_proofs s)) s)) [].
Proof.
  intros Hc Hf Ho. assert (Hn := orphan_counted s h it Hc Hf Ho).
  destruct Hc as [H1 H2 H3 H4 H5].
  unfold claimOrphan. run. rewrite Hf, Ho. run.
  rewrite decrementOrphans_1 by lia. cbn [result store logged].
  rewrite (flag_run h false _ it); fields; try assumption.
  reflexivity.
Qed.

Lemma remove_absent h s :
  Index.find h (m_proofs s) = None -> remove h s = mkRun (Returns false) s [].
Proof. intros Hf. unfold remove. run. rewrite Hf. reflexivity. Qed.

Lemma remove_present h s it :
  consistent s -> Index.find h (m_proofs s) = Some it ->
  remove h s =
  mkRun (Returns true)
    (with_numOrphans (m_numOrphans s - size_t_of_bool (orphan it))
       (with_proofs (Index.erase h (m_proofs s)) s)) [].
Proof.
  intros Hc Hf. unfold remove, index_erase. run. rewrite Hf. run.
  destruct (orphan it) eqn:Ho; cbn [size_t_of_bool].
  - assert (Hn := orphan_counted s h it Hc Hf Ho).
    rewrite decrementOrphans_1 by lia. reflexivity.
  - rewrite decrementOrphans_0. cbn [result store logged].
    rewrite N.sub_0_r. destruct s. reflexivity.
Qed.

(** ** Undefined high-water mark *)

Lemma checkOrphanLimit_undefined d s :
  highWaterMark (m_maxOrphans s) = None ->
  checkOrphanLimit d s = mkRun Undefined s [].
Proof. intros H. unfold checkOrphanLimit. run. rewrite H. reflexivity. Qed.

Lemma modify_undefined it modifier rollback s :
  result (modifier s) = Undefined ->
  result (modify it modifier rollback s) = Undefined.
Proof.
  intros H. unfold modify, bind, on_throw.
  destruct (modifier s) as [r st lg]. cbn [result] in H. subst r. reflexivity.
Qed.

Lemma addOrphan_undefined dsp peer now s :
  consistent s -> has_room s -> isEmpty dsp = false ->
  highWaterMark (m_maxOrphans s) = None ->
  result (addOrphan dsp peer now s) = Undefined.
Proof.
  intros Hc Hr He Hh.
  destruct (add_post dsp s Hc (fun _ => Hr) He) as (b & s1 & e1 & Ha & Hc1 & Hf1 & Ho1 & Hm1 & _).
  rewrite <- Hm1 in Hh.
  destruct (adopt_steps (GetId dsp) peer now s1 e1 Hf1) as [Hc2 Hc1'].
  set (c1 := if (nodeId e1 <? 0)%Z && (-1 <? peer)%Z
             then Index.update (GetId dsp) (set_nodeId peer) (m_proofs s1) else m_proofs s1) in *.
  set (c2 := if (timeStamp e1 <? 0)%Z
             then Index.update (GetId dsp) (set_timeStamp now) c1 else c1) in *.
  set (e1' := if (nodeId e1 <? 0)%Z && (-1 <? peer)%Z then set_nodeId peer e1 else e1) in *.
  assert (Ht1 : timeStamp e1' = timeStamp e1) by (subst e1'; destruct (_ && _); reflexivity).
  assert (Hf2 : exists e2, Index.find (GetId dsp) c2 = Some e2 /\ orphan e2 = false).
  { rewrite Hc2. eexists. split; [apply update_find; [apply adopt_keeps_id|exact Hf1]|exact Ho1]. }
  destruct Hf2 as (e2 & Hf2 & Ho2).
  assert (S1 : (if (nodeId e1 <? 0)%Z && (-1 <? peer)%Z
                then assign (GetId dsp) (set_nodeId peer) else ret tt) s1
               = mkRun (Returns tt) (with_proofs c1 s1) []).
  { subst c1. destruct (_ && _); [reflexivity|]. unfold ret. rewrite with_proofs_same. reflexivity. }
  assert (S2 : (if (timeStamp e1 <? 0)%Z
                then assign (GetId dsp) (set_timeStamp now) else ret tt) (with_proofs c1 s1)
               = mkRun (Returns tt) (with_proofs c2 s1) []).
  { subst c2. destruct (timeStamp e1 <? 0)%Z; reflexivity. }
  assert (Hmark : result (mark_orphan (GetId dsp) peer now s1) = Undefined).
  { unfold mark_orphan.
    erewrite bind_returns; [|apply deref_run; exact Hf1].
    erewrite bind_returns; [|exact S1].
    erewrite bind_returns; [|apply deref_run; fields; exact Hc1'].
    rewrite Ht1.
    erewrite bind_returns; [|exact S2].
    erewrite bind_returns; [|apply deref_run; fields; exact Hf2].
    rewrite Ho2. cbn [negb size_t_of_bool result].
    unfold incrementOrphans. cbn [N.eqb]. unfold bind, modify_store.
    cbn [result store logged].
    rewrite checkOrphanLimit_undefined by (fields; exact Hh). reflexivity. }
  unfold addOrphan, bind, get, ret. rewrite Ha. cbn [result store logged].
  rewrite Hf1.
  rewrite (modify_undefined _ _ ModFastFail _ Hmark). reflexivity.
Qed.

(** ** Every call keeps the store consistent *)

Lemma exec_consistent c s :
  consistent s -> has_room s -> completes (result (exec c s)) ->
  consistent (store (exec c s)).
Proof.
  intros Hc Hr Hdone. destruct c as [dsp|dsp peer now|h|h| |h| |max|secs]; cbn [exec] in *.
  - unfold void, bind, ret. destruct (isEmpty dsp) eqn:He.
    + rewrite add_empty by assumption. exact Hc.
    + destruct (add_post dsp s Hc (fun _ => Hr) He) as (b & s1 & e1 & Ha & Hc1 & _).
      rewrite Ha. exact Hc1.
  - destruct (isEmpty dsp) eqn:He.
    + unfold addOrphan, bind. rewrite add_empty by assumption. exact Hc.
    + destruct (highWaterMark (m_maxOrphans s)) as [high|] eqn:Hh.
      * destruct (addOrphan_run dsp peer now s high Hc (fun _ => Hr) He Hh) as (lg & -> & _).
        cbn [store].
        destruct (add_post dsp s Hc (fun _ => Hr) He) as (b & s1 & e1 & Ha & Hc1 & Hf1 & Ho1 & _).
        rewrite Ha. cbn [store]. eapply consistent_mark_orphan; eassumption.
      * rewrite (addOrphan_undefined dsp peer now s Hc Hr He Hh) in Hdone.
        contradiction.
  - destruct (Index.find h (m_proofs s)) as [it|] eqn:Hf.
    + destruct (orphan it) eqn:Ho.
      * rewrite (claimOrphan_orphan h s it) by assumption.
        apply consistent_unflag with (e := it); assumption.
      * rewrite (claimOrphan_plain h s it) by assumption. exact Hc.
    + rewrite claimOrphan_absent by assumption. exact Hc.
  - unfold void, bind, ret. destruct (Index.find h (m_proofs s)) as [it|] eqn:Hf.
    + rewrite (remove_present h s it) by assumption.
      apply consistent_erase; assumption.
    + rewrite remove_absent by assumption. exact Hc.
  - apply consistent_clear.
  - eapply consistent_ext; [| |exact Hc]; reflexivity.
  - eapply consistent_ext; [| |exact Hc]; reflexivity.
  - eapply consistent_ext; [| |exact Hc]; reflexivity.
  - unfold setSecondsToKeepOrphans. destruct (0 <=? secs)%Z; [|exact Hc].
    eapply consistent_ext; [| |exact Hc]; reflexivity.
Qed.

Lemma reachable_consistent s : reachable s -> consistent s.
Proof.
  induction 1 as [cfg|s c Hs IH Hr Hdone].
  - apply consistent_construct.
  - apply exec_consistent; assumption.
Qed.

Lemma find_perm h c c' :
  NoDup (ids c) -> Permutation c c' -> Index.find h c' = Index.find h c.
Proof.
  intros Hnd Hp.
  assert (Hnd' : NoDup (ids c'))
    by (unfold ids; eapply Permutation_NoDup; [apply Permutation_map; exact Hp|exact Hnd]).
  destruct (Index.find h c) as [x|] eqn:Hf.
  - destruct (find_in _ _ _ Hf) as [Hin Hid].
    apply find_unique; [exact Hnd'| |exact Hid]. eapply Permutation_in; eassumption.
  - apply find_none. apply find_none in Hf. intros Hin. apply Hf.
    unfold ids in *. eapply Permutation_in; [apply Permutation_map; symmetry; exact Hp|exact Hin].
Qed.

(** What [addOrphan] leaves, for the store [s] that [add] left. *)
Lemma mark_orphan_spec_facts h peer now high s e :
  consistent s -> Index.find h (m_proofs s) = Some e -> orphan e = false ->
  let s' := mark_orphan_spec h peer now high s in
  Index.find h (m_proofs s') = Some (set_orphan true (adopt peer now e)) /\
  m_maxOrphans s' = m_maxOrphans s /\
  m_recentRejects s' = m_recentRejects s /\
  size s' <= size s /\
  m_numOrphans s' <= m_numOrphans s + 1 /\
  (m_numOrphans s + 1 <= high ->
   m_numOrphans s' = m_numOrphans s + 1 /\
   forall h', h' <> h -> Index.find h' (m_proofs s') = Index.find h' (m_proofs s)) /\
  (high < m_numOrphans s + 1 ->
   m_numOrphans s' = N.max (N.min (m_maxOrphans s) (m_numOrphans s + 1)) 1).
Proof.
  intros Hc Hf Ho s'. subst s'. unfold mark_orphan_spec. rewrite Hf, Ho.
  destruct Hc as [H1 H2 H3 H4 H5].
  set (c2 := Index.update h (adopt peer now) (m_proofs s)).
  set (s2 := with_numOrphans (m_numOrphans s + 1) (with_proofs c2 s)).
  destruct (sweep_spec_shape h (m_maxOrphans s) high s2) as (k & Hk & Hk1 & Hk0 & Hkn & ->).
  subst s2. fields.
  assert (Hid2 : ids c2 = ids (m_proofs s)) by (apply update_ids, adopt_keeps_id).
  assert (Hnd2 : NoDup (ids c2)) by (rewrite Hid2; exact H1).
  assert (Hf2 : Index.find h c2 = Some (adopt peer now e))
    by (apply update_find; [apply adopt_keeps_id|exact Hf]).
  assert (Hce : count_evictable h c2 = count_orphans c2)
    by (apply count_evictable_protected with (e := adopt peer now e); assumption).
  assert (Hco : count_orphans c2 = count_orphans (m_proofs s))
    by (apply count_orphans_update_keep; reflexivity).
  set (c3 := evict h k c2) in *.
  assert (Hf3 : Index.find h c3 = Some (adopt peer now e))
    by (subst c3; rewrite evict_find; exact Hf2).
  assert (Hnd3 : NoDup (ids c3)) by (apply evict_nodup, Hnd2).
  set (c4 := Index.update h (set_orphan true) c3).
  assert (Hnd4 : NoDup (ids c4))
    by (subst c4; rewrite update_ids by apply set_orphan_keeps_id; exact Hnd3).
  assert (Hp := relink_perm h c4).
  split.
  { rewrite (find_perm h c4) by (assumption || (symmetry; exact Hp)).
    subst c4. apply update_find; [apply set_orphan_keeps_id|exact Hf3]. }
  split; [reflexivity|]. split; [reflexivity|].
  split.
  { unfold size, Index.size. fields. rewrite relink_length. subst c4.
    rewrite update_length. assert (Hl := evict_length h k c2). fold c3 in Hl.
    subst c2. rewrite update_length in Hl. lia. }
  split; [lia|]. split.
  - intros Hle. specialize (Hk0 Hle). subst k. split; [lia|].
    intros h' Hne. rewrite (find_perm h' c4) by (assumption || (symmetry; exact Hp)).
    subst c4 c3. rewrite evict_0.
    rewrite update_find_other by (apply set_orphan_keeps_id || exact Hne).
    subst c2. apply update_find_other; [apply adopt_keeps_id|exact Hne].
  - intros Hlt. specialize (Hkn Hlt). lia.
Qed.

(** ** The high-water mark in the exact range *)

Lemma highWaterMark_floor M : exact_product M -> highWaterMark M = Some (floor_1_25 M).
Proof. intros H. apply DoubleFacts.highWaterMark_exact. exact H. Qed.

Lemma floor_1_25_ge M : M <= floor_1_25 M.
Proof.
  unfold floor_1_25. apply N.div_le_lower_bound; lia.
Qed.

(** ** One admission *)

Lemma add_size dsp s : consistent s -> size (store (add dsp s)) <= size s + 1.
Proof.
  intros Hc. unfold size, Index.size. destruct (isEmpty dsp) eqn:He.
  - rewrite add_empty by assumption. cbn [store]. lia.
  - destruct (Index.find (GetId dsp) (m_proofs s)) as [it|] eqn:Hf.
    + destruct (orphan it) eqn:Ho.
      * rewrite (add_known_orphan dsp s it) by assumption. fields.
        rewrite update_length. lia.
      * rewrite (add_known_plain dsp s it) by assumption. cbn [store]. lia.
    + rewrite add_new by assumption. fields. rewrite link_length. lia.
Qed.

Lemma orphan_call_step dsp peer now s M :
  consistent s -> has_room s -> isEmpty dsp = false ->
  m_maxOrphans s = M -> exact_product M ->
  let r := addOrphan dsp peer now s in
  result r = Returns tt /\
  consistent (store r) /\
  m_maxOrphans (store r) = M /\
  m_numOrphans (store r) <= N.max 1 (floor_1_25 M) /\
  (logged r <> [] -> m_numOrphans (store r) <= N.max 1 M) /\
  (exists e, Index.find (GetId dsp) (m_proofs (store r)) = Some e /\ orphan e = true) /\
  size (store r) <= size s + 1.
Proof.
  intros Hc Hr He HM Hx r. subst r.
  assert (Hh : highWaterMark (m_maxOrphans s) = Some (floor_1_25 M))
    by (rewrite HM; apply highWaterMark_floor, Hx).
  destruct (addOrphan_run dsp peer now s _ Hc (fun _ => Hr) He Hh) as (lg & Hrun & Hq & Hl).
  assert (Hsz := add_size dsp s Hc).
  destruct (add_post dsp s Hc (fun _ => Hr) He) as (b & s1 & e1 & Ha & Hc1 & Hf1 & Ho1 & Hm1 & _).
  rewrite Ha in Hrun, Hq, Hl, Hsz. cbn [store] in Hrun, Hq, Hl, Hsz.
  rewrite Hrun. cbn [result store logged].
  destruct (mark_orphan_spec_facts (GetId dsp) peer now (floor_1_25 M) s1 e1 Hc1 Hf1 Ho1)
    as (Gf & Gm & _ & Gs & _ & Gq & Gl).
  assert (Hge := floor_1_25_ge M).
  split; [reflexivity|].
  split; [eapply consistent_mark_orphan; eassumption|].
  split; [rewrite Gm; congruence|].
  split.
  { destruct (N.le_gt_cases (m_numOrphans s1 + 1) (floor_1_25 M)) as [Hle|Hgt].
    - destruct (Gq Hle) as [-> _]. lia.
    - rewrite (Gl Hgt), Hm1, HM. lia. }
  split.
  { intros Hlog.
    destruct (N.le_gt_cases (m_numOrphans s1 + 1) (floor_1_25 M)) as [Hle|Hgt].
    - exfalso. apply Hlog, Hq, Hle.
    - rewrite (Gl Hgt), Hm1, HM. lia. }
  split; [eexists; split; [exact Gf|reflexivity]|].
  lia.
Qed.

(** ** A sequence of admissions *)

Lemma after_cons c calls s : after (c :: calls) s = after calls (store (exec c s)).
Proof. reflexivity. Qed.

Lemma orphan_calls_bound M calls : forall s,
  consistent s -> m_maxOrphans s = M -> exact_product M ->
  m_numOrphans s <= N.max 1 (floor_1_25 M) -> Forall orphan_call calls ->
  size s + N.of_nat (length calls) <= SIZE_MAX ->
  (forall n, m_numOrphans (after (firstn n calls) s) <= N.max 1 (floor_1_25 M)) /\
  (forall n dsp peer now,
     nth_error calls n = Some (AddOrphan dsp peer now) ->
     let r := addOrphan dsp peer now (after (firstn n calls) s) in
     result r = Returns tt /\
     (logged r <> [] -> m_numOrphans (store r) <= N.max 1 M) /\
     exists e, Index.find (GetId dsp) (m_proofs (store r)) = Some e /\ orphan e = true).
Proof.
  induction calls as [|c calls IH]; intros s Hc HM Hx Hn Hmark Hsz.
  - split.
    + intros n. rewrite firstn_nil. exact Hn.
    + intros n dsp peer now Hnth. destruct n; discriminate.
  - inversion Hmark as [|? ? Hc0 Hrest]; subst.
    destruct c as [|dsp0 peer0 now0| | | | | | |]; try contradiction.
    cbn [orphan_call] in Hc0. cbn [length] in Hsz.
    assert (Hr : has_room s) by (unfold has_room; lia).
    destruct (orphan_call_step dsp0 peer0 now0 s _ Hc Hr Hc0 eq_refl Hx)
      as (G1 & G2 & G3 & G4 & G5 & G6 & G7).
    destruct (IH (store (addOrphan dsp0 peer0 now0 s)) G2 G3 Hx G4 Hrest)
      as [IH1 IH2]; [lia|].
    split.
    + intros [|n]; [exact Hn|]. cbn [firstn]. rewrite after_cons. apply IH1.
    + intros [|n] dsp peer now Hnth.
      * cbn [nth_error] in Hnth. injection Hnth as -> -> ->.
        cbn [firstn after fold_left]. repeat split; assumption.
      * cbn [nth_error] in Hnth. cbn [firstn]. rewrite after_cons.
        apply IH2, Hnth.
Qed.

(** ** Reaching a state by a sequence of calls *)

Lemma reachable_after calls : forall s,
  reachable s -> runs calls s = true -> reachable (after calls s).
Proof.
  induction calls as [|c calls IH]; intros s Hs Hr; [exact Hs|].
  cbn [runs] in Hr. apply andb_prop in Hr. destruct Hr as [Hr Hrest].
  apply andb_prop in Hr. destruct Hr as [Hroom Hdone].
  rewrite after_cons. apply IH; [|exact Hrest].
  apply reachable_call; [exact Hs|apply N.ltb_lt, Hroom|].
  destruct (result (exec c s)); simpl; trivial; discriminate.
Qed.

Lemma fresh_reachable : reachable Sample.fresh.
Proof. apply reachable_construct. Qed.

Lemma two_orphans_reachable : reachable Sample.two_orphans.
Proof. apply reachable_after; [apply fresh_reachable|vm_compute; reflexivity]. Qed.

(** * Properties of the store *)

(** C1. In every state reached from a constructed store by calls of the
    public interface, [numOrphans()] is the number of stored records whose
    orphan flag is true. *)
Theorem counter_flag_agreement (s : Storage) :
  reachable s -> numOrphans s = N.of_nat (count_orphans (m_proofs s)).
Proof.
  intros Hs. destruct (reachable_consistent s Hs) as [_ H _ _ _]. exact H.
Qed.

Lemma counter_flag_agreement_witness :
  reachable Sample.two_orphans /\
  numOrphans Sample.two_orphans = N.of_nat (count_orphans (m_proofs Sample.two_orphans)).
Proof.
  split; [apply two_orphans_reachable|].
  apply (counter_flag_agreement Sample.two_orphans). apply two_orphans_reachable.
Defined.

(** C2, as the specification states it, fails for the limit 0: the sweep
    never erases the record being taken in, so one orphan stays and
    [numOrphans()] is 1, above floor(0 * 1.25) = 0 and above M = 0. *)
Lemma eviction_bound_counterexample :
  runs [SetMaxOrphans 0; AddOrphan (Sample.dsp 1) 5%Z 100%Z] Sample.fresh = true /\
  maxOrphans Sample.limit_zero = 0 /\
  numOrphans Sample.limit_zero = 1 /\
  ~ (numOrphans Sample.limit_zero <= floor_1_25 (maxOrphans Sample.limit_zero)) /\
  logged (addOrphan (Sample.dsp 1) 5%Z 100%Z (store (setMaxOrphans 0 Sample.fresh)))
    = [LogReaped 0 1 0 0].
Proof.
  repeat split; try (vm_compute; reflexivity).
  vm_compute. intros H. apply H. reflexivity.
Qed.

(** C2, amended.  Let the limit M be in the range 5 * M < 2^53, and let a
    reachable store with [maxOrphans() = M] and at most
    max(1, floor(M * 1.25)) orphans take any sequence of [addOrphan] calls
    with proofs that are not empty (their identities distinct or not).  Then
    [numOrphans()] never exceeds max(1, floor(M * 1.25)) after any call; a
    call whose sweep runs (it logs the reap line) leaves at most max(1, M)
    orphans; and after each call the record it took in is stored and is an
    orphan.  For M >= 1 the two bounds are floor(M * 1.25) and M. *)
Theorem eviction_bound (M : N) (calls : list Call) (s : Storage) :
  reachable s -> maxOrphans s = M -> exact_product M ->
  numOrphans s <= N.max 1 (floor_1_25 M) -> Forall orphan_call calls ->
  size s + N.of_nat (length calls) <= SIZE_MAX ->
  (forall n, numOrphans (after (firstn n calls) s) <= N.max 1 (floor_1_25 M)) /\
  (forall n dsp peer now,
     nth_error calls n = Some (AddOrphan dsp peer now) ->
     let r := addOrphan dsp peer now (after (firstn n calls) s) in
     result r = Returns tt /\
     (logged r <> [] -> numOrphans (store r) <= N.max 1 M) /\
     exists e, Index.find (GetId dsp) (m_proofs (store r)) = Some e /\ orphan e = true) /\
  (1 <= M -> N.max 1 (floor_1_25 M) = floor_1_25 M /\ N.max 1 M = M).
Proof.
  intros Hs HM Hx Hn Hmark Hsz.
  destruct (orphan_calls_bound M calls s (reachable_consistent s Hs) HM Hx Hn Hmark Hsz)
    as [H1 H2].
  split; [exact H1|]. split; [exact H2|].
  intros HM1. assert (Hge := floor_1_25_ge M). lia.
Qed.

Lemma eviction_bound_witness :
  let calls := [AddOrphan (Sample.dsp 3) 7%Z 102%Z; AddOrphan (Sample.dsp 4) 7%Z 103%Z] in
  (forall n, numOrphans (after (firstn n calls) Sample.two_orphans) <= N.max 1 (floor_1_25 2)) /\
  (forall n dsp peer now,
     nth_error calls n = Some (AddOrphan dsp peer now) ->
     let r := addOrphan dsp peer now (after (firstn n calls) Sample.two_orphans) in
     result r = Returns tt /\
     (logged r <> [] -> numOrphans (store r) <= N.max 1 2) /\
     exists e, Index.find (GetId dsp) (m_proofs (store r)) = Some e /\ orphan e = true) /\
  (1 <= 2 -> N.max 1 (floor_1_25 2) = floor_1_25 2 /\ N.max 1 2 = 2).
Proof.
  apply (eviction_bound 2 _ Sample.two_orphans).
  - apply two_orphans_reachable.
  - reflexivity.
  - unfold exact_product. lia.
  - vm_compute. discriminate.
  - repeat constructor.
  - vm_compute. discriminate.
Defined.

(** C3, as the specification states it, fails for limits beyond the exact
    range of the product: for the limit 2^52 + 3 the code's high-water mark
    is one above floor(limit * 1.25), and with the count at that value the
    routine erases nothing where the specification's sweep erases a record. *)
Lemma checkOrphanLimit_counterexample :
  let s := with_numOrphans 5629499534213124
             (with_maxOrphans Sample.huge_limit
                (with_proofs [set_orphan true (new_entry (Sample.dsp 1))] Sample.fresh)) in
  highWaterMark Sample.huge_limit = Some 5629499534213124 /\
  floor_1_25 Sample.huge_limit = 5629499534213123 /\
  store (checkOrphanLimit 2 s) = s /\
  m_proofs (sweep_spec 2 (m_maxOrphans s) (floor_1_25 (m_maxOrphans s)) s) = [] /\
  store (checkOrphanLimit 2 s)
    <> sweep_spec 2 (m_maxOrphans s) (floor_1_25 (m_maxOrphans s)) s.
Proof.
  cbv zeta. repeat split; try (vm_compute; reflexivity).
  intros H. apply (f_equal m_proofs) in H. vm_compute in H. discriminate.
Qed.

(** C3, amended.  [checkOrphanLimit] takes low = maxOrphans and
    high = size_t(low * 1.25), the product computed in double precision; high
    is floor(low * 1.25) when 5 * low < 2^53.  With these marks it does what
    the specification's sweep does: nothing while the count is at most high;
    otherwise it erases the first k evictable records in the order of the
    time-stamp index (orphans other than the one being taken in) and lowers
    the counter by k, stopping with the count at low or with no evictable
    record left.  The record being taken in is kept.  The routine is reached
    only through [incrementOrphans] with an argument that is not zero. *)
Theorem checkOrphanLimit_sweeps (dontDeleteHash : DspId) (s : Storage) (high : N) :
  highWaterMark (m_maxOrphans s) = Some high -> m_numOrphans s <= SIZE_MAX ->
  let low := m_maxOrphans s in
  let r := checkOrphanLimit dontDeleteHash s in
  (exact_product low -> high = floor_1_25 low /\ low <= high) /\
  result r = Returns tt /\
  store r = sweep_spec dontDeleteHash low high s /\
  (m_numOrphans s <= high -> store r = s /\ logged r = []) /\
  (high < m_numOrphans s ->
   exists k : nat,
     m_proofs (store r) = evict dontDeleteHash k (m_proofs s) /\
     m_numOrphans (store r) = m_numOrphans s - N.of_nat k /\
     filter (evictable dontDeleteHash) (m_proofs (store r))
       = skipn k (filter (evictable dontDeleteHash) (m_proofs s)) /\
     filter (fun e => negb (evictable dontDeleteHash e)) (m_proofs (store r))
       = filter (fun e => negb (evictable dontDeleteHash e)) (m_proofs s) /\
     (m_numOrphans (store r) <= low \/
      count_evictable dontDeleteHash (m_proofs (store r)) = 0%nat) /\
     (low <= high ->
      m_numOrphans (store r) = low \/
      count_evictable dontDeleteHash (m_proofs (store r)) = 0%nat) /\
     logged r = [LogReaped (N.of_nat k) (m_numOrphans (store r)) low high]) /\
  Index.find dontDeleteHash (m_proofs (store r)) = Index.find dontDeleteHash (m_proofs s) /\
  incrementOrphans 0 dontDeleteHash s = mkRun (Returns tt) s [].
Proof.
  intros Hh Hn low r.
  assert (Hrun := checkOrphanLimit_run dontDeleteHash s high Hh Hn).
  fold r in Hrun. fold low in Hrun.
  destruct (sweep_spec_shape dontDeleteHash low high s) as (k & Hk & Hk1 & Hk0 & Hkn & Hs).
  rewrite Hrun. cbn [result store logged].
  split.
  { intros Hx. assert (Hf := highWaterMark_floor low Hx). fold low in Hh.
    rewrite Hh in Hf. injection Hf as ->. split; [reflexivity|apply floor_1_25_ge]. }
  split; [reflexivity|]. split; [reflexivity|].
  split.
  { intros Hle. split.
    - unfold sweep_spec. apply N.leb_le in Hle. rewrite Hle. reflexivity.
    - apply N.leb_le in Hle. rewrite Hle. reflexivity. }
  split.
  { intros Hlt. specialize (Hkn Hlt). exists k. rewrite Hs. fields.
    split; [reflexivity|]. split; [reflexivity|].
    split; [apply evict_first|]. split; [apply evict_others|].
    rewrite evict_count_evictable.
    split; [|split].
    - destruct (N.le_gt_cases (m_numOrphans s - low)
                  (N.of_nat (count_evictable dontDeleteHash (m_proofs s)))); [left|right]; lia.
    - intros Hlh.
      destruct (N.le_gt_cases (m_numOrphans s - low)
                  (N.of_nat (count_evictable dontDeleteHash (m_proofs s)))); [left|right]; lia.
    - apply N.leb_gt in Hlt. rewrite Hlt. unfold reaped. fold low.
      rewrite <- Hkn. reflexivity. }
  split; [|reflexivity].
  rewrite Hs. fields. apply evict_find.
Qed.

Lemma checkOrphanLimit_sweeps_witness :
  let s := with_numOrphans 3
             (with_proofs (m_proofs Sample.two_orphans ++ [new_entry (Sample.dsp 3)])
                Sample.two_orphans) in
  let r := checkOrphanLimit 3 s in
  highWaterMark (m_maxOrphans s) = Some 2 /\
  (exact_product 2 -> 2 = floor_1_25 2 /\ 2 <= 2) /\
  result r = Returns tt /\
  store r = sweep_spec 3 2 2 s /\
  m_numOrphans (store r) = 2 /\
  map entry_id (m_proofs (store r)) = [2; 3].
Proof.
  assert (Hh : highWaterMark
                 (m_maxOrphans
                    (with_numOrphans 3
                       (with_proofs (m_proofs Sample.two_orphans ++ [new_entry (Sample.dsp 3)])
                          Sample.two_orphans))) = Some 2) by (vm_compute; reflexivity).
  assert (Hn : m_numOrphans
                 (with_numOrphans 3
                    (with_proofs (m_proofs Sample.two_orphans ++ [new_entry (Sample.dsp 3)])
                       Sample.two_orphans)) <= SIZE_MAX) by (vm_compute; discriminate).
  destruct (checkOrphanLimit_sweeps 3 _ 2 Hh Hn) as (H1 & H2 & H3 & _).
  cbv zeta. split; [exact Hh|]. split; [exact H1|]. split; [exact H2|].
  split; [exact H3|]. split; vm_compute; reflexivity.
Defined.

Lemma find_link h e c :
  Index.find h c = None -> entry_id e = h -> Index.find h (Index.link e c) = Some e.
Proof.
  intros Hf He. induction c as [|x c IH]; cbn [Index.link].
  - apply find_here, He.
  - destruct (timeStamp e <? timeStamp x)%Z; [apply find_here, He|].
    unfold Index.find in *. cbn [List.find] in *.
    destruct (Index.has_id h x); [discriminate|]. apply IH, Hf.
Qed.

(** C4.  [add] throws on an empty proof before touching the store.  For a
    proof that is not empty: a stored orphan of that identity is counted out
    and its flag cleared, and the call returns false; a stored record that is
    not an orphan is left alone and the call returns false; otherwise a new
    record that is not an orphan is stored and the call returns true. *)
Theorem add_behaviour (dsp : DoubleSpendProof) (s : Storage) :
  reachable s ->
  (isEmpty dsp = true -> add dsp s = mkRun (Throws invalid_argument) s []) /\
  (isEmpty dsp = false ->
   match Index.find (GetId dsp) (m_proofs s) with
   | Some it =>
       if orphan it then
         add dsp s =
           mkRun (Returns false)
             (with_numOrphans (m_numOrphans s - 1)
                (with_proofs (Index.update (GetId dsp) (set_orphan false) (m_proofs s)) s))
             [] /\
         1 <= m_numOrphans s /\
         Index.find (GetId dsp) (m_proofs (store (add dsp s))) = Some (set_orphan false it)
       else add dsp s = mkRun (Returns false) s []
   | None =>
       add dsp s =
         mkRun (Returns true)
           (with_proofs (Index.link (new_entry dsp) (m_proofs s)) s) [] /\
       Index.find (GetId dsp) (m_proofs (store (add dsp s))) = Some (new_entry dsp) /\
       size (store (add dsp s)) = size s + 1 /\
       numOrphans (store (add dsp s)) = numOrphans s
   end).
Proof.
  intros Hs. assert (Hc := reachable_consistent s Hs).
  split; [apply add_empty|]. intros He.
  destruct (Index.find (GetId dsp) (m_proofs s)) as [it|] eqn:Hf.
  - destruct (orphan it) eqn:Ho.
    + rewrite (add_known_orphan dsp s it) by assumption. fields.
      split; [reflexivity|]. split; [apply (orphan_counted s (GetId dsp) it); assumption|].
      apply update_find; [apply set_orphan_keeps_id|exact Hf].
    + apply (add_known_plain dsp s it); assumption.
  - rewrite add_new by assumption. fields.
    split; [reflexivity|]. split; [apply find_link; [exact Hf|reflexivity]|].
    split; [|reflexivity].
    unfold size, Index.size. fields. rewrite link_length. lia.
Qed.

Lemma add_behaviour_witness :
  reachable Sample.two_orphans /\
  add (Sample.dsp 2) Sample.two_orphans =
    mkRun (Returns false)
      (with_numOrphans 1
         (with_proofs (Index.update 2 (set_orphan false) (m_proofs Sample.two_orphans))
            Sample.two_orphans)) [] /\
  add default_proof Sample.two_orphans = mkRun (Throws invalid_argument) Sample.two_orphans [].
Proof.
  split; [apply two_orphans_reachable|].
  destruct (add_behaviour (Sample.dsp 2) Sample.two_orphans two_orphans_reachable) as [_ H2].
  destruct (add_behaviour default_proof Sample.two_orphans two_orphans_reachable) as [H1 _].
  split; [|apply H1; reflexivity].
  specialize (H2 eq_refl).
  change (Index.find (GetId (Sample.dsp 2)) (m_proofs Sample.two_orphans))
    with (Some (mkEntry (Sample.dsp 2) true 6%Z 101%Z)) in H2.
  cbn [orphan] in H2. destruct H2 as [H2 _]. exact H2.
Defined.

(** C5.  [addOrphan] throws like [add] on an empty proof.  Otherwise it is
    [add] followed by the admission the specification describes: the peer
    handle is adopted only when the stored one is negative and the supplied
    one is not; the time stamp is set to the current time only when it is
    negative; the counter is incremented unless the record is an orphan
    already, with the sweep that may follow sparing the record; and the flag
    is set last.  A time stamp that was set before the call is the same
    after it. *)
Theorem addOrphan_behaviour (dsp : DoubleSpendProof) (peer : NodeId) (now : Z)
    (high : N) (s : Storage) :
  reachable s -> has_room s -> highWaterMark (maxOrphans s) = Some high ->
  (isEmpty dsp = true ->
   addOrphan dsp peer now s = mkRun (Throws invalid_argument) s []) /\
  (isEmpty dsp = false ->
   let s1 := store (add dsp s) in
   let r := addOrphan dsp peer now s in
   exists e1,
     Index.find (GetId dsp) (m_proofs s1) = Some e1 /\
     result r = Returns tt /\
     store r = mark_orphan_spec (GetId dsp) peer now high s1 /\
     Index.find (GetId dsp) (m_proofs (store r)) =
       Some {| proof := proof e1;
               orphan := true;
               nodeId := if (nodeId e1 <? 0)%Z && (-1 <? peer)%Z then peer else nodeId e1;
               timeStamp := if (timeStamp e1 <? 0)%Z then now else timeStamp e1 |} /\
     (orphan e1 = false /\ numOrphans (store r) <= numOrphans s1 + 1) /\
     (forall e0 e',
        Index.find (GetId dsp) (m_proofs s) = Some e0 ->
        Index.find (GetId dsp) (m_proofs (store r)) = Some e' ->
        (0 <= timeStamp e0)%Z -> timeStamp e' = timeStamp e0)).
Proof.
  intros Hs Hr Hh. assert (Hc := reachable_consistent s Hs). split.
  - intros He. unfold addOrphan, bind. rewrite add_empty by assumption. reflexivity.
  - intros He s1 r. subst s1 r.
    destruct (addOrphan_run dsp peer now s high Hc (fun _ => Hr) He Hh) as (lg & Hrun & _).
    destruct (add_post dsp s Hc (fun _ => Hr) He)
      as (b & s1 & e1 & Ha & Hc1 & Hf1 & Ho1 & _ & _ & _ & Hrel).
    rewrite Ha in *. cbn [store] in *. rewrite Hrun. cbn [result store].
    destruct (mark_orphan_spec_facts (GetId dsp) peer now high s1 e1 Hc1 Hf1 Ho1)
      as (Gf & _ & _ & _ & Gn & _).
    exists e1. split; [exact Hf1|]. split; [reflexivity|]. split; [reflexivity|].
    split; [exact Gf|]. split; [split; [exact Ho1|exact Gn]|].
    intros e0 e' H0 H' Ht. rewrite Gf in H'. injection H' as <-.
    rewrite H0 in Hrel. destruct Hrel as [-> _]. cbn.
    destruct (timeStamp e0 <? 0)%Z eqn:E; [apply Z.ltb_lt in E; lia|reflexivity].
Qed.

Lemma addOrphan_behaviour_witness :
  reachable Sample.two_orphans /\ has_room Sample.two_orphans /\
  highWaterMark (maxOrphans Sample.two_orphans) = Some 2 /\
  addOrphan default_proof 9%Z 500%Z Sample.two_orphans
    = mkRun (Throws invalid_argument) Sample.two_orphans [] /\
  exists e1,
    Index.find 1 (m_proofs (store (add (Sample.dsp 1) Sample.two_orphans))) = Some e1 /\
    result (addOrphan (Sample.dsp 1) 9%Z 500%Z Sample.two_orphans) = Returns tt.
Proof.
  assert (Hroom : has_room Sample.two_orphans) by (vm_compute; reflexivity).
  assert (Hhigh : highWaterMark (maxOrphans Sample.two_orphans) = Some 2)
    by (vm_compute; reflexivity).
  split; [apply two_orphans_reachable|]. split; [exact Hroom|]. split; [exact Hhigh|].
  destruct (addOrphan_behaviour default_proof 9%Z 500%Z 2 Sample.two_orphans
              two_orphans_reachable Hroom Hhigh) as [H1 _].
  destruct (addOrphan_behaviour (Sample.dsp 1) 9%Z 500%Z 2 Sample.two_orphans
              two_orphans_reachable Hroom Hhigh) as [_ H2].
  split; [apply H1; reflexivity|].
  destruct (H2 eq_refl) as (e1 & Hf & Hres & _).
  exists e1. split; [exact Hf|exact Hres].
Defined.

(** C6, as the specification states it, fails when the [addOrphan] call
    triggers the sweep: with the limit 2 and two orphans stored, taking in a
    third record evicts the oldest orphan, and after [claimOrphan] the count
    is 1, not the 2 it was before [addOrphan]. *)
Lemma orphan_round_trip_counterexample :
  let s1 := store (add (Sample.dsp 7) Sample.two_orphans) in
  let s2 := store (addOrphan (Sample.dsp 7) 9%Z 500%Z s1) in
  let s3 := store (claimOrphan 7 s2) in
  reachable Sample.two_orphans /\
  Index.find 7 (m_proofs Sample.two_orphans) = None /\
  numOrphans s1 = 2 /\ numOrphans s3 = 1 /\ numOrphans s3 <> numOrphans s1.
Proof.
  cbv zeta. split; [apply two_orphans_reachable|].
  repeat split; try (vm_compute; reflexivity).
  vm_compute. discriminate.
Qed.

(** C6, amended.  For a proof that is not empty and not stored yet and a
    peer handle that is set, [add], [addOrphan], [claimOrphan] in a row leave
    the record stored, not an orphan, with the peer handle and the time of
    the [addOrphan] call.  [numOrphans()] is then what it was before
    [addOrphan] if that call did not run the sweep (the count plus one was at
    most the high-water mark); if it did, other orphans were evicted and the
    count is at most what it was. *)
Theorem orphan_round_trip (dsp : DoubleSpendProof) (peer : NodeId) (now : Z)
    (high : N) (s : Storage) :
  reachable s -> has_room s -> isEmpty dsp = false ->
  Index.find (GetId dsp) (m_proofs s) = None ->
  (0 <= peer)%Z ->
  highWaterMark (maxOrphans s) = Some high ->
  let s1 := store (add dsp s) in
  let s2 := store (addOrphan dsp peer now s1) in
  let s3 := store (claimOrphan (GetId dsp) s2) in
  result (add dsp s) = Returns true /\
  result (addOrphan dsp peer now s1) = Returns tt /\
  result (claimOrphan (GetId dsp) s2) = Returns tt /\
  Index.find (GetId dsp) (m_proofs s3) =
    Some {| proof := dsp; orphan := false; nodeId := peer; timeStamp := now |} /\
  numOrphans s3 <= numOrphans s1 /\
  (numOrphans s1 + 1 <= high -> numOrphans s3 = numOrphans s1).
Proof.
  intros Hs Hr He Hfresh Hpeer Hh s1 s2 s3. subst s1 s2 s3.
  assert (Hc := reachable_consistent s Hs).
  destruct (add_post dsp s Hc (fun _ => Hr) He)
    as (b & s1 & e1 & Ha & Hc1 & Hf1 & Ho1 & Hm1 & _ & _ & Hrel).
  rewrite Hfresh in Hrel. destruct Hrel as [-> ->].
  rewrite Ha. cbn [result store].
  assert (Ha1 : add dsp s1 = mkRun (Returns false) s1 [])
    by (apply (add_known_plain dsp s1 (new_entry dsp)); assumption).
  assert (Hh1 : highWaterMark (m_maxOrphans s1) = Some high) by (rewrite Hm1; exact Hh).
  assert (Hnr : Index.find (GetId dsp) (m_proofs s1) = None -> has_room s1)
    by (rewrite Hf1; discriminate).
  destruct (addOrphan_run dsp peer now s1 high Hc1 Hnr He Hh1) as (lg & Hrun & _).
  rewrite Ha1 in Hrun. cbn [store] in Hrun. rewrite Hrun. cbn [result store].
  destruct (mark_orphan_spec_facts (GetId dsp) peer now high s1 _ Hc1 Hf1 Ho1)
    as (Gf & _ & _ & _ & Gn & Gq & Gl).
  assert (Hc2 : consistent (mark_orphan_spec (GetId dsp) peer now high s1))
    by (eapply consistent_mark_orphan; eassumption).
  set (s2 := mark_orphan_spec (GetId dsp) peer now high s1) in *.
  assert (Hcl := claimOrphan_orphan (GetId dsp) s2 _ Hc2 Gf eq_refl).
  assert (Hpos := orphan_counted s2 (GetId dsp) _ Hc2 Gf eq_refl).
  rewrite Hcl. cbn [result store]. fields.
  split; [reflexivity|]. split; [reflexivity|]. split; [reflexivity|].
  split.
  { rewrite (update_find (GetId dsp) (set_orphan false) _ _ (set_orphan_keeps_id false) Gf).
    f_equal. unfold set_orphan, adopt, new_entry. cbn.
    assert (E : (-1 <? peer)%Z = true) by (apply Z.ltb_lt; lia).
    rewrite E. reflexivity. }
  unfold numOrphans. fields. split; [lia|].
  intros Hle. destruct (Gq Hle) as [Hq _]. lia.
Qed.

Lemma orphan_round_trip_witness :
  let s1 := store (add (Sample.dsp 7) Sample.fresh) in
  let s2 := store (addOrphan (Sample.dsp 7) 9%Z 500%Z s1) in
  let s3 := store (claimOrphan 7 s2) in
  result (add (Sample.dsp 7) Sample.fresh) = Returns true /\
  result (addOrphan (Sample.dsp 7) 9%Z 500%Z s1) = Returns tt /\
  result (claimOrphan 7 s2) = Returns tt /\
  Index.find 7 (m_proofs s3) =
    Some {| proof := Sample.dsp 7; orphan := false; nodeId := 9%Z; timeStamp := 500%Z |} /\
  numOrphans s3 <= numOrphans s1 /\
  (numOrphans s1 + 1 <= 81918 -> numOrphans s3 = numOrphans s1).
Proof.
  apply (orphan_round_trip (Sample.dsp 7) 9%Z 500%Z 81918 Sample.fresh).
  - apply fresh_reachable.
  - vm_compute. reflexivity.
  - reflexivity.
  - reflexivity.
  - lia.
  - vm_compute. reflexivity.
Defined.

(** C7, as the specification states it, fails for the counter: a decrement
    below zero is not logged and does not end the process, it throws
    [std::runtime_error], which a caller can catch. *)
Lemma internal_errors_counterexample :
  m_numOrphans Sample.broken = 0 /\
  decrementOrphans 1 Sample.broken = mkRun (Throws runtime_error) Sample.broken [] /\
  result (decrementOrphans 1 Sample.broken) <> Aborts /\
  result (claimOrphan 1 Sample.broken) = Throws runtime_error /\
  logged (claimOrphan 1 Sample.broken) = [].
Proof.
  repeat split; try (vm_compute; reflexivity).
  vm_compute. discriminate.
Qed.

(** C7, amended.  The two internal errors are reported in different ways,
    each under its own condition and in any store.  A decrement that would
    take the counter below zero throws [std::runtime_error] before the
    counter is changed and without a log line; the exception leaves
    [claimOrphan], [remove] and [add] as it is, with the store untouched, so
    it reaches the caller, who can catch it.  A modification the index cannot
    commit is fatal: [ModFastFail] logs the record and fails an assertion,
    which ends the process, whatever the modifier did before. *)
Theorem internal_errors (s : Storage) :
  (forall n, m_numOrphans s < n ->
     decrementOrphans n s = mkRun (Throws runtime_error) s []) /\
  (forall h it,
     Index.find h (m_proofs s) = Some it -> orphan it = true -> m_numOrphans s = 0 ->
     claimOrphan h s = mkRun (Throws runtime_error) s [] /\
     remove h s = mkRun (Throws runtime_error) s [] /\
     (forall dsp, isEmpty dsp = false -> GetId dsp = h ->
        add dsp s = mkRun (Throws runtime_error) s [])) /\
  (forall e, ModFastFail e s = mkRun Aborts s [LogModifyFailed (GetId (proof e))]) /\
  (forall it modifier s1 lg e,
     modifier s = mkRun (Returns tt) s1 lg ->
     Index.find it (m_proofs s1) = Some e ->
     Index.collides it (m_proofs s1) = true ->
     modify it modifier ModFastFail s
     = mkRun Aborts s1 (lg ++ [LogModifyFailed (GetId (proof e))])).
Proof.
  split; [intros n Hn; apply decrementOrphans_underflow, Hn|].
  split.
  - intros h it Hf Ho H0.
    assert (Hd : decrementOrphans 1 s = mkRun (Throws runtime_error) s [])
      by (apply decrementOrphans_underflow; lia).
    split; [|split].
    + unfold claimOrphan. run. rewrite Hf, Ho. run. rewrite Hd. reflexivity.
    + unfold remove. run. rewrite Hf, Ho. cbn [size_t_of_bool]. run.
      rewrite Hd. reflexivity.
    + intros dsp He <-. unfold add. rewrite He. run. rewrite Hf, Ho. run.
      rewrite Hd. reflexivity.
  - split; [reflexivity|].
    intros it modifier s1 lg e Hm Hf Hc.
    apply (modify_collision it modifier s s1 lg e Hm Hf Hc).
Qed.

Lemma internal_errors_witness :
  let s := with_numOrphans 0 Sample.limit_zero in
  decrementOrphans 1 s = mkRun (Throws runtime_error) s [] /\
  claimOrphan 1 s = mkRun (Throws runtime_error) s [] /\
  remove 1 s = mkRun (Throws runtime_error) s [] /\
  add (Sample.dsp 1) s = mkRun (Throws runtime_error) s [] /\
  modify 1 (ret tt) ModFastFail Sample.broken
    = mkRun Aborts Sample.broken [LogModifyFailed 1].
Proof.
  cbv zeta.
  destruct (internal_errors (with_numOrphans 0 Sample.limit_zero)) as (H1 & H2 & _).
  destruct (internal_errors Sample.broken) as (_ & _ & _ & H4).
  destruct (H2 1 (mkEntry (Sample.dsp 1) true 5%Z 100%Z)) as (G1 & G2 & G3);
    [vm_compute; reflexivity|reflexivity|reflexivity|].
  split; [apply H1; vm_compute; reflexivity|].
  split; [exact G1|]. split; [exact G2|].
  split; [apply G3; reflexivity|].
  apply (H4 1 (ret tt) Sample.broken [] (set_orphan true (new_entry (Sample.dsp 1))));
    reflexivity.
Defined.

(** Neither error occurs in a reachable state: a call returns, or throws
    [std::invalid_argument] for an empty proof, or is undefined because the
    high-water mark is. *)
Lemma no_internal_error c s :
  reachable s -> has_room s ->
  result (exec c s) = Returns tt \/
  result (exec c s) = Throws invalid_argument \/
  result (exec c s) = Undefined.
Proof.
  intros Hs Hr. assert (Hc := reachable_consistent s Hs).
  destruct c as [dsp|dsp peer now|h|h| |h| |max|secs]; cbn [exec].
  - unfold void, bind, ret. destruct (isEmpty dsp) eqn:He.
    + rewrite add_empty by assumption. right. left. reflexivity.
    + destruct (add_post dsp s Hc (fun _ => Hr) He) as (b & s1 & e1 & Ha & _).
      rewrite Ha. left. reflexivity.
  - destruct (isEmpty dsp) eqn:He.
    + unfold addOrphan, bind. rewrite add_empty by assumption. right. left. reflexivity.
    + destruct (highWaterMark (m_maxOrphans s)) as [high|] eqn:Hh.
      * destruct (addOrphan_run dsp peer now s high Hc (fun _ => Hr) He Hh) as (lg & -> & _).
        left. reflexivity.
      * right. right. apply addOrphan_undefined; assumption.
  - left. destruct (Index.find h (m_proofs s)) as [it|] eqn:Hf.
    + destruct (orphan it) eqn:Ho.
      * rewrite (claimOrphan_orphan h s it) by assumption. reflexivity.
      * rewrite (claimOrphan_plain h s it) by assumption. reflexivity.
    + rewrite claimOrphan_absent by assumption. reflexivity.
  - left. unfold void, bind, ret. destruct (Index.find h (m_proofs s)) as [it|] eqn:Hf.
    + rewrite (remove_present h s it) by assumption. reflexivity.
    + rewrite remove_absent by assumption. reflexivity.
  - left. reflexivity.
  - left. reflexivity.
  - left. reflexivity.
  - left. reflexivity.
  - left. unfold setSecondsToKeepOrphans. destruct (0 <=? secs)%Z; reflexivity.
Qed.

(** The sweep writes its trace only from [addOrphan]: no other call of the
    public interface logs anything in a reachable state. *)
Lemma sweep_only_from_addOrphan c s :
  reachable s -> has_room s ->
  match c with AddOrphan _ _ _ => True | _ => logged (exec c s) = [] end.
Proof.
  intros Hs Hr. assert (Hc := reachable_consistent s Hs).
  destruct c as [dsp|dsp peer now|h|h| |h| |max|secs]; cbn [exec]; trivial.
  - unfold void, bind, ret. destruct (isEmpty dsp) eqn:He.
    + rewrite add_empty by assumption. reflexivity.
    + destruct (add_post dsp s Hc (fun _ => Hr) He) as (b & s1 & e1 & Ha & _).
      rewrite Ha. reflexivity.
  - destruct (Index.find h (m_proofs s)) as [it|] eqn:Hf.
    + destruct (orphan it) eqn:Ho.
      * rewrite (claimOrphan_orphan h s it) by assumption. reflexivity.
      * rewrite (claimOrphan_plain h s it) by assumption. reflexivity.
    + rewrite claimOrphan_absent by assumption. reflexivity.
  - unfold void, bind, ret. destruct (Index.find h (m_proofs s)) as [it|] eqn:Hf.
    + rewrite (remove_present h s it) by assumption. reflexivity.
    + rewrite remove_absent by assumption. reflexivity.
  - unfold setSecondsToKeepOrphans. destruct (0 <=? secs)%Z; reflexivity.
Qed.

(** ** The rejected filter *)

Lemma setbits_keep ps : forall b p,
  N.testbit b p = true -> N.testbit (fold_left N.setbit ps b) p = true.
Proof.
  induction ps as [|q ps IH]; intros b p H; [exact H|].
  cbn [fold_left]. apply IH. rewrite N.setbit_eqb, H. apply orb_true_r.
Qed.

Lemma setbits_set ps : forall b p,
  In p ps -> N.testbit (fold_left N.setbit ps b) p = true.
Proof.
  induction ps as [|q ps IH]; intros b p Hin; [contradiction|].
  cbn [fold_left]. destruct Hin as [->|Hin].
  - apply setbits_keep. rewrite N.setbit_eqb, N.eqb_refl. reflexivity.
  - apply IH, Hin.
Qed.

Lemma contains_insert x f : Filter.contains x (Filter.insert x f) = true.
Proof.
  unfold Filter.contains, Filter.insert. cbn [bits].
  change (Filter.positions
            {| hash_first := hash_first f; hash_more := hash_more f;
               bits := fold_left N.setbit (Filter.positions f x) (bits f) |} x)
    with (Filter.positions f x).
  apply forallb_forall. intros p Hp. apply setbits_set, Hp.
Qed.

Lemma contains_reset x f : Filter.contains x (Filter.reset f) = false.
Proof. reflexivity. Qed.

(** C8.  After [clear()] the store has no record and no orphan, no identity
    is reported as recently rejected, and the hashers have the keys they had. *)
Theorem clear_resets (s : Storage) (x : DspId) :
  result (clear s) = Returns tt /\
  size (store (clear s)) = 0 /\
  numOrphans (store (clear s)) = 0 /\
  isRecentlyRejectedProof x (store (clear s)) = false /\
  isRecentlyRejectedProof x (store (clear (store (markProofRejected x s)))) = false /\
  m_idHasher (store (clear s)) = m_idHasher s /\
  m_outPointHasher (store (clear s)) = m_outPointHasher s.
Proof. repeat split. Qed.

(** C9.  Right after [markProofRejected(X)], [isRecentlyRejectedProof(X)] is
    true; after [newBlockFound()] it is false. *)
Theorem rejected_filter_reset (X : DspId) (s : Storage) :
  let s1 := store (markProofRejected X s) in
  let s2 := store (newBlockFound s1) in
  result (markProofRejected X s) = Returns tt /\
  isRecentlyRejectedProof X s1 = true /\
  result (newBlockFound s1) = Returns tt /\
  isRecentlyRejectedProof X s2 = false.
Proof.
  cbv zeta. split; [reflexivity|]. split; [|split; reflexivity].
  unfold isRecentlyRejectedProof, markProofRejected, modify_store.
  cbn [store m_recentRejects with_recentRejects]. apply contains_insert.
Qed.

(** C10.  In every reachable state no stored proof is empty; hence [lookup]
    gives an empty proof (the default one) exactly for the identities that
    are not stored, and [exists] is true exactly when [lookup] gives a proof
    that is not empty. *)
Theorem stored_proofs_not_empty (s : Storage) (h : DspId) :
  reachable s ->
  Forall (fun e => isEmpty (proof e) = false) (m_proofs s) /\
  (isEmpty (lookup h s) = true <-> Index.find h (m_proofs s) = None) /\
  (lookup h s = default_proof <-> Index.find h (m_proofs s) = None) /\
  (exists_ h s = false <-> Index.find h (m_proofs s) = None) /\
  (exists_ h s = true <-> isEmpty (lookup h s) = false).
Proof.
  intros Hs. destruct (reachable_consistent s Hs) as [_ _ _ _ H5].
  split; [exact H5|].
  unfold lookup, exists_. destruct (Index.find h (m_proofs s)) as [it|] eqn:Hf.
  - destruct (find_in _ _ _ Hf) as [Hin _].
    rewrite Forall_forall in H5. specialize (H5 it Hin).
    repeat split; try discriminate; try congruence.
    intros E. rewrite E in H5. discriminate.
  - repeat split; try reflexivity; try discriminate.
Qed.

Lemma stored_proofs_not_empty_witness :
  reachable Sample.two_orphans /\
  (exists_ 1 Sample.two_orphans = true <-> isEmpty (lookup 1 Sample.two_orphans) = false) /\
  (lookup 9 Sample.two_orphans = default_proof <->
   Index.find 9 (m_proofs Sample.two_orphans) = None).
Proof.
  split; [apply two_orphans_reachable|].
  destruct (stored_proofs_not_empty Sample.two_orphans 1 two_orphans_reachable)
    as (_ & _ & _ & _ & H1).
  destruct (stored_proofs_not_empty Sample.two_orphans 9 two_orphans_reachable)
    as (_ & _ & H9 & _).
  split; assumption.
Defined.

(** * Further properties *)

(** ** Erasing and finding *)

Lemma erase_find_same h c : NoDup (ids c) -> Index.find h (Index.erase h c) = None.
Proof.
  intros Hnd. destruct (Index.find h c) as [x|] eqn:Hf.
  - destruct (find_split _ _ _ Hf) as (l1 & l2 & -> & E & Hn).
    rewrite erase_mid by assumption. apply find_none.
    unfold ids in *. rewrite map_app in *. cbn [map] in Hnd.
    apply NoDup_remove_2 in Hnd. rewrite E in Hnd. exact Hnd.
  - apply find_none in Hf. rewrite erase_fresh by assumption. apply find_none, Hf.
Qed.

Lemma erase_find_other h h' c :
  h' <> h -> Index.find h' (Index.erase h c) = Index.find h' c.
Proof.
  intros Hne. unfold Index.find. induction c as [|x c IH]; [reflexivity|].
  cbn [Index.erase List.find]. destruct (Index.has_id h x) eqn:E.
  - apply has_id_true in E.
    assert (E' : Index.has_id h' x = false) by (apply has_id_false; congruence).
    rewrite E'. reflexivity.
  - cbn [List.find]. destruct (Index.has_id h' x); [reflexivity|exact IH].
Qed.

Lemma erase_link h e c :
  ~ In h (ids c) -> entry_id e = h -> Index.erase h (Index.link e c) = c.
Proof.
  intros Hn He. induction c as [|x c IH]; cbn [Index.link Index.erase].
  - apply has_id_true in He. rewrite He. reflexivity.
  - destruct (timeStamp e <? timeStamp x)%Z; cbn [Index.erase].
    + apply has_id_true in He. rewrite He. reflexivity.
    + unfold ids in Hn. cbn [map] in Hn.
      assert (Ex : Index.has_id h x = false) by (apply has_id_false; intros E; apply Hn; left; exact E).
      rewrite Ex. f_equal. apply IH. intros Hin. apply Hn. right. exact Hin.
Qed.

(** X1.  [remove] of an identity that is not stored returns false and
    changes nothing.  [remove] of a stored identity returns true, after which
    the identity is not stored, the store is one record smaller, an orphan
    is counted out, and every other identity is found as before. *)
Theorem remove_behaviour (h : DspId) (s : Storage) :
  reachable s ->
  match Index.find h (m_proofs s) with
  | None => remove h s = mkRun (Returns false) s []
  | Some it =>
      let r := remove h s in
      result r = Returns true /\ logged r = [] /\
      exists_ h (store r) = false /\
      lookup h (store r) = default_proof /\
      size (store r) + 1 = size s /\
      numOrphans (store r) + size_t_of_bool (orphan it) = numOrphans s /\
      (forall h', h' <> h ->
         Index.find h' (m_proofs (store r)) = Index.find h' (m_proofs s))
  end.
Proof.
  intros Hs. assert (Hc := reachable_consistent s Hs).
  destruct (Index.find h (m_proofs s)) as [it|] eqn:Hf.
  - cbv zeta. rewrite (remove_present h s it Hc Hf). cbn [result store logged].
    destruct Hc as [H1 H2 H3 H4 H5].
    assert (Hgone := erase_find_same h (m_proofs s) H1).
    split; [reflexivity|]. split; [reflexivity|].
    unfold exists_, lookup, size, Index.size, numOrphans. fields. rewrite Hgone.
    split; [reflexivity|]. split; [reflexivity|].
    split; [assert (Hl := erase_length h _ _ Hf); lia|].
    split.
    { assert (Hp : size_t_of_bool (orphan it) <= m_numOrphans s).
      { destruct (orphan it) eqn:Ho; cbn [size_t_of_bool]; [|lia].
        destruct (find_in _ _ _ Hf) as [Hin _].
        assert (G := count_orphans_pos _ _ Hin Ho). lia. }
      lia. }
    intros h' Hne. apply erase_find_other, Hne.
  - apply remove_absent, Hf.
Qed.

Lemma remove_behaviour_witness :
  reachable Sample.two_orphans /\
  result (remove 1 Sample.two_orphans) = Returns true /\
  exists_ 1 (store (remove 1 Sample.two_orphans)) = false /\
  numOrphans (store (remove 1 Sample.two_orphans)) + 1 = numOrphans Sample.two_orphans /\
  remove 9 Sample.two_orphans = mkRun (Returns false) Sample.two_orphans [].
Proof.
  split; [apply two_orphans_reachable|].
  assert (H1 := remove_behaviour 1 Sample.two_orphans two_orphans_reachable).
  assert (H9 := remove_behaviour 9 Sample.two_orphans two_orphans_reachable).
  change (Index.find 1 (m_proofs Sample.two_orphans))
    with (Some (mkEntry (Sample.dsp 1) true 5%Z 100%Z)) in H1.
  change (Index.find 9 (m_proofs Sample.two_orphans)) with (@None Entry) in H9.
  cbv zeta in H1. destruct H1 as (R & _ & E & _ & _ & N & _).
  split; [exact R|]. split; [exact E|]. split; [exact N|exact H9].
Defined.

(** X2.  [claimOrphan] always returns and never takes a record out: the
    store keeps its size and [lookup] answers as before for every identity.
    A stored orphan loses its flag and is counted out, its proof, peer and
    time stamp staying; in every other case the store is unchanged.  A
    second [claimOrphan] of the same identity changes nothing. *)
Theorem claimOrphan_behaviour (h : DspId) (s : Storage) :
  reachable s ->
  let r := claimOrphan h s in
  result r = Returns tt /\ logged r = [] /\
  size (store r) = size s /\
  (forall h', lookup h' (store r) = lookup h' s) /\
  (forall h', h' <> h ->
     Index.find h' (m_proofs (store r)) = Index.find h' (m_proofs s)) /\
  match Index.find h (m_proofs s) with
  | Some it =>
      Index.find h (m_proofs (store r)) = Some (set_orphan false it) /\
      numOrphans (store r) + size_t_of_bool (orphan it) = numOrphans s /\
      (orphan it = false -> store r = s)
  | None => store r = s
  end /\
  claimOrphan h (store r) = mkRun (Returns tt) (store r) [].
Proof.
  intros Hs r. subst r. assert (Hc := reachable_consistent s Hs).
  destruct (Index.find h (m_proofs s)) as [it|] eqn:Hf.
  - destruct (orphan it) eqn:Ho.
    + rewrite (claimOrphan_orphan h s it Hc Hf Ho). cbn [result store logged].
      assert (Hn := orphan_counted s h it Hc Hf Ho).
      assert (Hf' : Index.find h (Index.update h (set_orphan false) (m_proofs s))
                    = Some (set_orphan false it))
        by (apply update_find; [apply set_orphan_keeps_id|exact Hf]).
      split; [reflexivity|]. split; [reflexivity|].
      unfold size, Index.size, lookup, numOrphans. fields.
      split; [rewrite update_length; reflexivity|].
      split.
      { intros h'. destruct (N.eq_dec h' h) as [->|Hne].
        - rewrite Hf', Hf. reflexivity.
        - rewrite update_find_other by (apply set_orphan_keeps_id || exact Hne). reflexivity. }
      split; [intros h' Hne; apply update_find_other; [apply set_orphan_keeps_id|exact Hne]|].
      split; [split; [exact Hf'|split; [cbn [size_t_of_bool]; lia|discriminate]]|].
      apply (claimOrphan_plain h _ (set_orphan false it)); [exact Hf'|reflexivity].
    + rewrite (claimOrphan_plain h s it Hf Ho). cbn [result store logged].
      repeat split; try reflexivity.
      * rewrite Hf. f_equal. destruct it. cbn in Ho. subst. reflexivity.
      * unfold numOrphans. cbn [size_t_of_bool]. lia.
      * apply (claimOrphan_plain h s it Hf Ho).
  - rewrite (claimOrphan_absent h s Hf). cbn [result store logged].
    repeat split; try reflexivity. apply claimOrphan_absent, Hf.
Qed.

Lemma claimOrphan_behaviour_witness :
  reachable Sample.two_orphans /\
  result (claimOrphan 1 Sample.two_orphans) = Returns tt /\
  size (store (claimOrphan 1 Sample.two_orphans)) = size Sample.two_orphans /\
  claimOrphan 1 (store (claimOrphan 1 Sample.two_orphans))
    = mkRun (Returns tt) (store (claimOrphan 1 Sample.two_orphans)) [].
Proof.
  split; [apply two_orphans_reachable|].
  destruct (claimOrphan_behaviour 1 Sample.two_orphans two_orphans_reachable)
    as (R & _ & S & _ & _ & _ & I).
  split; [exact R|]. split; [exact S|exact I].
Defined.

(** X3.  A second [add] of the same proof returns false and leaves the store
    as the first [add] left it. *)
Theorem add_twice (dsp : DoubleSpendProof) (s : Storage) :
  reachable s -> has_room s -> isEmpty dsp = false ->
  let s1 := store (add dsp s) in
  add dsp s1 = mkRun (Returns false) s1 [] /\
  (Index.find (GetId dsp) (m_proofs s) = None -> result (add dsp s) = Returns true).
Proof.
  intros Hs Hr He s1. subst s1. assert (Hc := reachable_consistent s Hs).
  destruct (add_post dsp s Hc (fun _ => Hr) He)
    as (b & s1 & e1 & Ha & Hc1 & Hf1 & Ho1 & _ & _ & _ & Hrel).
  rewrite Ha. cbn [store result]. split.
  - apply (add_known_plain dsp s1 e1); assumption.
  - intros Hf. rewrite Hf in Hrel. destruct Hrel as [_ ->]. reflexivity.
Qed.

Lemma add_twice_witness :
  let s1 := store (add (Sample.dsp 7) Sample.two_orphans) in
  add (Sample.dsp 7) s1 = mkRun (Returns false) s1 [] /\
  (Index.find 7 (m_proofs Sample.two_orphans) = None ->
   result (add (Sample.dsp 7) Sample.two_orphans) = Returns true).
Proof.
  apply (add_twice (Sample.dsp 7) Sample.two_orphans).
  - apply two_orphans_reachable.
  - vm_compute. reflexivity.
  - reflexivity.
Defined.

(** X4.  After [add] of a proof that is not empty and was not stored,
    [exists] holds of its identity and [lookup] gives the proof back;
    [remove] then returns true and leaves the store exactly as it was before
    the [add]. *)
Theorem add_lookup_remove (dsp : DoubleSpendProof) (s : Storage) :
  reachable s -> has_room s -> isEmpty dsp = false ->
  Index.find (GetId dsp) (m_proofs s) = None ->
  let s1 := store (add dsp s) in
  exists_ (GetId dsp) s1 = true /\
  lookup (GetId dsp) s1 = dsp /\
  remove (GetId dsp) s1 = mkRun (Returns true) s [].
Proof.
  intros Hs Hr He Hf s1. subst s1. assert (Hc := reachable_consistent s Hs).
  destruct (add_post dsp s Hc (fun _ => Hr) He)
    as (b & s1 & e1 & Ha & Hc1 & Hf1 & Ho1 & _ & _ & _ & Hrel).
  rewrite Hf in Hrel. destruct Hrel as [-> ->].
  rewrite Ha. cbn [store]. unfold exists_, lookup. rewrite Hf1.
  split; [reflexivity|]. split; [reflexivity|].
  rewrite (remove_present (GetId dsp) s1 _ Hc1 Hf1).
  rewrite add_new in Ha by assumption. injection Ha as <-.
  cbn [orphan new_entry size_t_of_bool]. fields.
  rewrite erase_link; [|apply find_none, Hf|reflexivity].
  rewrite N.sub_0_r. destruct s. reflexivity.
Qed.

Lemma add_lookup_remove_witness :
  let s1 := store (add (Sample.dsp 7) Sample.two_orphans) in
  exists_ 7 s1 = true /\
  lookup 7 s1 = Sample.dsp 7 /\
  remove 7 s1 = mkRun (Returns true) Sample.two_orphans [].
Proof.
  apply (add_lookup_remove (Sample.dsp 7) Sample.two_orphans).
  - apply two_orphans_reachable.
  - vm_compute. reflexivity.
  - reflexivity.
  - reflexivity.
Defined.

(** ** The listing queries *)

Lemma outpoint_eqb_eq a b : outpoint_eqb a b = true <-> a = b.
Proof.
  unfold outpoint_eqb. destruct a as [t1 n1], b as [t2 n2]. cbn [GetTxId GetN].
  rewrite andb_true_iff, !N.eqb_eq. split; [intros [-> ->]; reflexivity|].
  intros [= -> ->]. split; reflexivity.
Qed.

Lemma findOrphans_loop_eq range : forall answer,
  findOrphans_loop range answer
  = answer ++ map (fun e => (GetId (proof e), nodeId e)) (filter orphan range).
Proof.
  induction range as [|it rest IH]; intros answer; cbn [findOrphans_loop filter].
  - cbn [map]. rewrite app_nil_r. reflexivity.
  - rewrite IH. destruct (orphan it); [|reflexivity].
    cbn [map]. rewrite <- app_assoc. reflexivity.
Qed.

Lemma findOrphans_eq prevOut s :
  findOrphans prevOut s
  = map (fun e => (GetId (proof e), nodeId e))
        (filter orphan (equal_range prevOut (m_proofs s))).
Proof. unfold findOrphans. rewrite findOrphans_loop_eq. reflexivity. Qed.

Lemma stored_iff_found c e :
  NoDup (ids c) -> (In e c <-> Index.find (entry_id e) c = Some e).
Proof.
  intros Hnd. split.
  - intros Hin. apply find_unique; [exact Hnd|exact Hin|reflexivity].
  - intros Hf. apply (find_in _ _ _ Hf).
Qed.

Lemma filter_ids_nodup (f : Entry -> bool) c : NoDup (ids c) -> NoDup (ids (filter f c)).
Proof.
  unfold ids. induction c as [|x c IH]; cbn [filter map]; intros Hnd; [constructor|].
  inversion Hnd as [|? ? Hx Hc]; subst. destruct (f x); [|apply IH, Hc].
  cbn [map]. constructor; [|apply IH, Hc].
  intros Hin. apply Hx. apply in_map_iff in Hin. destruct Hin as (y & Hy & Hin).
  apply in_map_iff. exists y. split; [exact Hy|]. apply filter_In in Hin. tauto.
Qed.

Lemma filter_filter_length {A} (f g : A -> bool) (l : list A) :
  (length (filter g (filter f l)) <= length (filter g l))%nat.
Proof.
  induction l as [|x l IH]; cbn [filter]; [lia|].
  destruct (f x); cbn [filter]; destruct (g x); cbn [length]; lia.
Qed.

Lemma findOrphans_member prevOut s id peer :
  consistent s ->
  (In (id, peer) (findOrphans prevOut s) <->
   exists e, Index.find id (m_proofs s) = Some e /\
             orphan e = true /\ prevOutPoint (proof e) = prevOut /\ nodeId e = peer).
Proof.
  intros [H1 _ _ _ _]. rewrite findOrphans_eq. unfold equal_range.
  rewrite in_map_iff. split.
  - intros (e & [= <- <-] & Hin). apply filter_In in Hin. destruct Hin as [Hin Ho].
    apply filter_In in Hin. destruct Hin as [Hin Hp].
    exists e. split; [apply (stored_iff_found _ e H1), Hin|].
    split; [exact Ho|]. split; [apply outpoint_eqb_eq, Hp|reflexivity].
  - intros (e & Hf & Ho & Hp & Hn). destruct (find_in _ _ _ Hf) as [Hin Hid].
    exists e. split; [unfold entry_id in Hid; congruence|].
    apply filter_In. split; [|exact Ho]. apply filter_In. split; [exact Hin|].
    apply outpoint_eqb_eq, Hp.
Qed.

(** X5.  [findOrphans(prevOut)] lists exactly the stored orphans whose proof
    refers to [prevOut], each with its identity and its peer handle: records
    that are not orphans and records of other outputs are left out, no
    identity is listed twice, and the list is not longer than
    [numOrphans()]. *)
Theorem findOrphans_exact (prevOut : COutPoint) (s : Storage) :
  reachable s ->
  (forall id peer,
     In (id, peer) (findOrphans prevOut s) <->
     exists e, Index.find id (m_proofs s) = Some e /\
               orphan e = true /\ prevOutPoint (proof e) = prevOut /\ nodeId e = peer) /\
  NoDup (map fst (findOrphans prevOut s)) /\
  N.of_nat (length (findOrphans prevOut s)) <= numOrphans s.
Proof.
  intros Hs. assert (Hc := reachable_consistent s Hs).
  split; [intros id peer; apply findOrphans_member, Hc|].
  destruct Hc as [H1 H2 _ _ _].
  rewrite findOrphans_eq. unfold equal_range. split.
  - rewrite map_map. cbn [fst].
    apply (filter_ids_nodup orphan), (filter_ids_nodup _ _ H1).
  - rewrite length_map. unfold numOrphans. rewrite H2. unfold count_orphans.
    assert (G := filter_filter_length
                   (fun e => outpoint_eqb (prevOutPoint (proof e)) prevOut) orphan (m_proofs s)).
    lia.
Qed.

Lemma findOrphans_exact_witness :
  reachable Sample.two_orphans /\
  (In (1, 5%Z) (findOrphans (mkOutPoint 1 0) Sample.two_orphans) <->
   exists e, Index.find 1 (m_proofs Sample.two_orphans) = Some e /\
             orphan e = true /\ prevOutPoint (proof e) = mkOutPoint 1 0 /\ nodeId e = 5%Z) /\
  NoDup (map fst (findOrphans (mkOutPoint 1 0) Sample.two_orphans)).
Proof.
  split; [apply two_orphans_reachable|].
  destruct (findOrphans_exact (mkOutPoint 1 0) Sample.two_orphans two_orphans_reachable)
    as (H & Hn & _).
  split; [apply H|exact Hn].
Defined.


(** X6.  A proof that is not empty and not stored, taken in by [addOrphan],
    is listed by [findOrphans] under the output it refers to, with the peer
    handle of the call (or -1 when the call gave none).  After [claimOrphan]
    of its identity no [findOrphans] lists it any more, while [lookup] still
    gives the proof. *)
Theorem orphan_listed_until_claimed (dsp : DoubleSpendProof) (peer : NodeId) (now : Z)
    (high : N) (s : Storage) :
  reachable s -> has_room s -> isEmpty dsp = false ->
  Index.find (GetId dsp) (m_proofs s) = None ->
  highWaterMark (maxOrphans s) = Some high ->
  let s1 := store (addOrphan dsp peer now s) in
  let s2 := store (claimOrphan (GetId dsp) s1) in
  In (GetId dsp, if (-1 <? peer)%Z then peer else (-1)%Z)
     (findOrphans (prevOutPoint dsp) s1) /\
  (forall out p, ~ In (GetId dsp, p) (findOrphans out s2)) /\
  lookup (GetId dsp) s2 = dsp /\
  exists_ (GetId dsp) s2 = true.
Proof.
  intros Hs Hr He Hf Hh s1 s2. subst s1 s2. assert (Hc := reachable_consistent s Hs).
  destruct (addOrphan_run dsp peer now s high Hc (fun _ => Hr) He Hh) as (lg & Hrun & _).
  destruct (add_post dsp s Hc (fun _ => Hr) He)
    as (b & sa & e1 & Ha & Hca & Hfa & Hoa & _ & _ & _ & Hrel).
  rewrite Hf in Hrel. destruct Hrel as [-> ->].
  rewrite Ha in Hrun. cbn [store] in Hrun. rewrite Hrun. cbn [store].
  destruct (mark_orphan_spec_facts (GetId dsp) peer now high sa _ Hca Hfa Hoa)
    as (Gf & _).
  assert (Hc1 : consistent (mark_orphan_spec (GetId dsp) peer now high sa))
    by (eapply consistent_mark_orphan; eassumption).
  set (s1 := mark_orphan_spec (GetId dsp) peer now high sa) in *.
  rewrite (claimOrphan_orphan (GetId dsp) s1 _ Hc1 Gf eq_refl). cbn [store].
  assert (Hc2 := consistent_unflag s1 (GetId dsp) _ Hc1 Gf eq_refl).
  assert (Gf2 := update_find (GetId dsp) (set_orphan false) _ _ (set_orphan_keeps_id false) Gf).
  split.
  { apply (findOrphans_member _ _ _ _ Hc1). eexists. split; [exact Gf|].
    split; [reflexivity|]. split; [reflexivity|]. reflexivity. }
  split.
  { intros out p Hin. apply (findOrphans_member _ _ _ _ Hc2) in Hin.
    destruct Hin as (e & Hfe & Ho & _). fields. rewrite Gf2 in Hfe.
    injection Hfe as <-. discriminate. }
  unfold lookup, exists_. fields. rewrite Gf2. split; reflexivity.
Qed.

Lemma orphan_listed_until_claimed_witness :
  let s1 := store (addOrphan (Sample.dsp 7) 9%Z 500%Z Sample.two_orphans) in
  let s2 := store (claimOrphan 7 s1) in
  In (7, 9%Z) (findOrphans (mkOutPoint 7 0) s1) /\
  (forall out p, ~ In (7, p) (findOrphans out s2)) /\
  lookup 7 s2 = Sample.dsp 7 /\
  exists_ 7 s2 = true.
Proof.
  apply (orphan_listed_until_claimed (Sample.dsp 7) 9%Z 500%Z 2 Sample.two_orphans).
  - apply two_orphans_reachable.
  - vm_compute. reflexivity.
  - reflexivity.
  - reflexivity.
  - vm_compute. reflexivity.
Defined.

Lemma getAll_loop_eq inc entries : forall ret,
  getAll_loop inc entries ret
  = ret ++ map (fun e => (proof e, orphan e))
               (filter (fun e => negb (orphan e && negb inc)) entries).
Proof.
  induction entries as [|e rest IH]; intros ret; cbn [getAll_loop filter].
  - cbn [map]. rewrite app_nil_r. reflexivity.
  - destruct (orphan e && negb inc); cbn [negb]; rewrite IH; [reflexivity|].
    cbn [map]. rewrite <- app_assoc. reflexivity.
Qed.

Lemma filter_split_length {A} (f : A -> bool) (l : list A) :
  (length (filter f l) + length (filter (fun x => negb (f x)) l) = length l)%nat.
Proof.
  induction l as [|x l IH]; cbn [filter]; [reflexivity|].
  destruct (f x); cbn [negb length]; lia.
Qed.

(** X7.  [getAll(true)] lists every stored record once, with its orphan
    flag; [getAll(false)] lists the records that are not orphans and no
    other, so every flag in it is false; and the two lists differ in length
    by [numOrphans()]. *)
Theorem getAll_lists (s : Storage) :
  reachable s ->
  N.of_nat (length (getAll true s)) = size s /\
  N.of_nat (length (getAll false s)) + numOrphans s = size s /\
  (forall p b,
     In (p, b) (getAll true s) <->
     exists e, In e (m_proofs s) /\ proof e = p /\ orphan e = b) /\
  (forall p b, In (p, b) (getAll false s) <-> In (p, b) (getAll true s) /\ b = false) /\
  (forall p b, In (p, b) (getAll true s) -> lookup (GetId p) s = p).
Proof.
  intros Hs. destruct (reachable_consistent s Hs) as [H1 H2 _ _ _].
  unfold getAll. rewrite !getAll_loop_eq. cbn [app negb].
  unfold size, Index.size, numOrphans. rewrite H2. unfold count_orphans.
  assert (Ht : forall c : list Entry,
             filter (fun e => negb (orphan e && false)) c = c).
  { induction c as [|x c IH]; cbn [filter]; [reflexivity|].
    rewrite andb_false_r. cbn [negb]. f_equal. exact IH. }
  assert (Hfalse : forall c : list Entry,
             filter (fun e => negb (orphan e && true)) c
             = filter (fun e => negb (orphan e)) c).
  { intros c. apply filter_ext. intros e. rewrite andb_true_r. reflexivity. }
  rewrite Ht, Hfalse, !length_map.
  split; [reflexivity|].
  split; [assert (G := filter_split_length orphan (m_proofs s)); lia|].
  assert (Hall : forall p b,
            In (p, b) (map (fun e => (proof e, orphan e)) (m_proofs s)) <->
            exists e, In e (m_proofs s) /\ proof e = p /\ orphan e = b).
  { intros p b. rewrite in_map_iff. split.
    - intros (e & [= <- <-] & Hin). exists e. auto.
    - intros (e & Hin & <- & <-). exists e. auto. }
  split; [exact Hall|]. split.
  - intros p b. rewrite Hall, in_map_iff. split.
    + intros (e & [= <- <-] & Hin). apply filter_In in Hin. destruct Hin as [Hin Ho].
      split; [exists e; auto|]. destruct (orphan e); [discriminate|reflexivity].
    + intros [(e & Hin & <- & <-) Hb]. exists e. split; [reflexivity|].
      apply filter_In. split; [exact Hin|]. rewrite Hb. reflexivity.
  - intros p b Hin. apply Hall in Hin. destruct Hin as (e & Hin & <- & _).
    unfold lookup. change (GetId (proof e)) with (entry_id e).
    rewrite (proj1 (stored_iff_found _ e H1) Hin). reflexivity.
Qed.

Lemma getAll_lists_witness :
  reachable Sample.two_orphans /\
  N.of_nat (length (getAll true Sample.two_orphans)) = size Sample.two_orphans /\
  N.of_nat (length (getAll false Sample.two_orphans)) + numOrphans Sample.two_orphans
    = size Sample.two_orphans.
Proof.
  split; [apply two_orphans_reachable|].
  destruct (getAll_lists Sample.two_orphans two_orphans_reachable) as (H1 & H2 & _).
  split; [exact H1|exact H2].
Defined.

(** ** How calls end *)

(** X8.  In a reachable store no call of the public interface fails an
    assertion or throws [std::runtime_error].  [add] and [addOrphan] throw
    [std::invalid_argument] exactly for an empty proof, and then leave the
    store and the log untouched; [addOrphan] is undefined exactly when the
    proof is not empty and the high-water mark has no value; every other
    call returns. *)
Theorem call_outcomes (c : Call) (s : Storage) :
  reachable s -> has_room s ->
  result (exec c s) =
    match c with
    | Add dsp => if isEmpty dsp then Throws invalid_argument else Returns tt
    | AddOrphan dsp _ _ =>
        if isEmpty dsp then Throws invalid_argument
        else match highWaterMark (maxOrphans s) with
             | Some _ => Returns tt
             | None => Undefined
             end
    | _ => Returns tt
    end /\
  (result (exec c s) = Throws invalid_argument ->
   store (exec c s) = s /\ logged (exec c s) = []).
Proof.
  intros Hs Hr. assert (Hc := reachable_consistent s Hs).
  destruct c as [dsp|dsp peer now|h|h| |h| |max|secs]; cbn [exec].
  - unfold void, bind, ret. destruct (isEmpty dsp) eqn:He.
    + rewrite add_empty by assumption. cbn [result store logged]. auto.
    + destruct (add_post dsp s Hc (fun _ => Hr) He) as (b & s1 & e1 & Ha & _).
      rewrite Ha. cbn [result]. split; [reflexivity|discriminate].
  - destruct (isEmpty dsp) eqn:He.
    + unfold addOrphan, bind. rewrite add_empty by assumption.
      cbn [result store logged]. auto.
    + unfold maxOrphans. destruct (highWaterMark (m_maxOrphans s)) as [high|] eqn:Hh.
      * destruct (addOrphan_run dsp peer now s high Hc (fun _ => Hr) He Hh) as (lg & -> & _).
        cbn [result]. split; [reflexivity|discriminate].
      * rewrite (addOrphan_undefined dsp peer now s Hc Hr He Hh).
        split; [reflexivity|discriminate].
  - split; [|intros H; exfalso; revert H];
    (destruct (Index.find h (m_proofs s)) as [it|] eqn:Hf;
     [destruct (orphan it) eqn:Ho;
      [rewrite (claimOrphan_orphan h s it) by assumption
      |rewrite (claimOrphan_plain h s it) by assumption]
     |rewrite claimOrphan_absent by assumption]); cbn [result];
    try reflexivity; discriminate.
  - unfold void, bind, ret.
    split; [|intros H; exfalso; revert H];
    (destruct (Index.find h (m_proofs s)) as [it|] eqn:Hf;
     [rewrite (remove_present h s it) by assumption
     |rewrite remove_absent by assumption]); cbn [result];
    try reflexivity; discriminate.
  - split; [reflexivity|discriminate].
  - split; [reflexivity|discriminate].
  - split; [reflexivity|discriminate].
  - split; [reflexivity|discriminate].
  - unfold setSecondsToKeepOrphans.
    destruct (0 <=? secs)%Z; (split; [reflexivity|discriminate]).
Qed.

Lemma call_outcomes_witness :
  result (exec (AddOrphan default_proof 9%Z 500%Z) Sample.two_orphans)
    = Throws invalid_argument /\
  store (exec (AddOrphan default_proof 9%Z 500%Z) Sample.two_orphans) = Sample.two_orphans /\
  result (exec (Remove 9) Sample.two_orphans) = Returns tt.
Proof.
  assert (Hroom : has_room Sample.two_orphans) by (vm_compute; reflexivity).
  destruct (call_outcomes (AddOrphan default_proof 9%Z 500%Z) Sample.two_orphans
              two_orphans_reachable Hroom) as [H1 H2].
  destruct (call_outcomes (Remove 9) Sample.two_orphans two_orphans_reachable Hroom)
    as [H3 _].
  split; [exact H1|]. split; [apply H2; exact H1|exact H3].
Defined.

(** ** The limit *)

(** X9.  [setMaxOrphans] evicts nothing by itself: records and counter stay
    as they are, even when the count is above the new mark.  The next
    [addOrphan] of a proof that is not empty brings the count down to at
    most max(1, floor(max * 1.25)), whatever it was (for 5 * max < 2^53). *)
Theorem lowered_limit (max : N) (dsp : DoubleSpendProof) (peer : NodeId) (now : Z)
    (s : Storage) :
  reachable s -> has_room s -> isEmpty dsp = false -> exact_product max ->
  let s1 := store (setMaxOrphans max s) in
  let r := addOrphan dsp peer now s1 in
  m_proofs s1 = m_proofs s /\ numOrphans s1 = numOrphans s /\ maxOrphans s1 = max /\
  result r = Returns tt /\
  numOrphans (store r) <= N.max 1 (floor_1_25 max) /\
  maxOrphans (store r) = max.
Proof.
  intros Hs Hr He Hx s1 r. subst s1 r.
  assert (Hc := reachable_consistent s Hs).
  cbn [setMaxOrphans modify_store store]. fields.
  split; [reflexivity|]. split; [reflexivity|]. split; [reflexivity|].
  assert (Hc1 : consistent (with_maxOrphans max s))
    by (eapply consistent_ext; [| |exact Hc]; reflexivity).
  assert (Hr1 : has_room (with_maxOrphans max s)) by exact Hr.
  destruct (orphan_call_step dsp peer now (with_maxOrphans max s) max Hc1 Hr1 He eq_refl Hx)
    as (G1 & _ & G3 & G4 & _).
  split; [exact G1|]. split; [exact G4|exact G3].
Qed.

Lemma lowered_limit_witness :
  let s1 := store (setMaxOrphans 0 Sample.two_orphans) in
  let r := addOrphan (Sample.dsp 7) 9%Z 500%Z s1 in
  m_proofs s1 = m_proofs Sample.two_orphans /\ numOrphans s1 = numOrphans Sample.two_orphans /\
  maxOrphans s1 = 0 /\
  result r = Returns tt /\
  numOrphans (store r) <= N.max 1 (floor_1_25 0) /\
  maxOrphans (store r) = 0.
Proof.
  apply (lowered_limit 0 (Sample.dsp 7) 9%Z 500%Z Sample.two_orphans).
  - apply two_orphans_reachable.
  - vm_compute. reflexivity.
  - reflexivity.
  - unfold exact_product. lia.
Defined.

(** ** What leaves the store *)

Lemma evict_find_kept a k c h e :
  NoDup (ids c) -> Index.find h c = Some e -> evictable a e = false ->
  Index.find h (evict a k c) = Some e.
Proof.
  intros Hnd Hf He. destruct (find_in _ _ _ Hf) as [Hin Hid].
  apply find_unique; [apply evict_nodup, Hnd| |exact Hid].
  apply evict_keeps; assumption.
Qed.

(** The final index of [addOrphan], by the number of records the sweep took. *)
Lemma mark_orphan_spec_index h0 peer now high s e0 :
  consistent s -> Index.find h0 (m_proofs s) = Some e0 -> orphan e0 = false ->
  exists k : nat,
    let c2 := Index.update h0 (adopt peer now) (m_proofs s) in
    let c3 := evict h0 k c2 in
    NoDup (ids c2) /\ NoDup (ids c3) /\
    Permutation (m_proofs (mark_orphan_spec h0 peer now high s))
                (Index.update h0 (set_orphan true) c3) /\
    NoDup (ids (Index.update h0 (set_orphan true) c3)).
Proof.
  intros [H1 _ _ _ _] Hf Ho. unfold mark_orphan_spec. rewrite Hf, Ho.
  set (c2 := Index.update h0 (adopt peer now) (m_proofs s)).
  set (s2 := with_numOrphans (m_numOrphans s + 1) (with_proofs c2 s)).
  destruct (sweep_spec_shape h0 (m_maxOrphans s) high s2) as (k & _ & _ & _ & _ & ->).
  exists k. cbv zeta. subst s2. fields.
  assert (Hnd2 : NoDup (ids c2))
    by (subst c2; rewrite update_ids by apply adopt_keeps_id; exact H1).
  assert (Hnd3 : NoDup (ids (evict h0 k c2))) by (apply evict_nodup, Hnd2).
  split; [exact Hnd2|]. split; [exact Hnd3|].
  split; [apply relink_perm|].
  rewrite update_ids by apply set_orphan_keeps_id. exact Hnd3.
Qed.

Lemma mark_orphan_spec_keeps h0 peer now high s e0 h e :
  consistent s -> Index.find h0 (m_proofs s) = Some e0 -> orphan e0 = false ->
  h <> h0 -> Index.find h (m_proofs s) = Some e -> orphan e = false ->
  Index.find h (m_proofs (mark_orphan_spec h0 peer now high s)) = Some e.
Proof.
  intros Hc Hf0 Ho0 Hne Hf Ho.
  destruct (mark_orphan_spec_index h0 peer now high s e0 Hc Hf0 Ho0)
    as (k & Hnd2 & Hnd3 & Hp & Hnd4). cbv zeta in *.
  rewrite (find_perm h _ _ Hnd4 (Permutation_sym Hp)).
  rewrite update_find_other by (apply set_orphan_keeps_id || exact Hne).
  apply evict_find_kept; [exact Hnd2| |].
  - rewrite update_find_other by (apply adopt_keeps_id || exact Hne). exact Hf.
  - unfold evictable. rewrite Ho. reflexivity.
Qed.

(** X10.  A record leaves the store only by [remove] of its identity, by
    [clear], or, if it is an orphan, by the sweep of an [addOrphan] call.
    After any other call that comes back, [exists] still holds of the
    identity and [lookup] gives the same proof. *)
Theorem records_stay (c : Call) (h : DspId) (e : Entry) (s : Storage) :
  reachable s -> has_room s -> completes (result (exec c s)) ->
  Index.find h (m_proofs s) = Some e ->
  ~ may_erase c h ->
  orphan e = false \/ (forall dsp peer now, c <> AddOrphan dsp peer now) ->
  exists_ h (store (exec c s)) = true /\
  lookup h (store (exec c s)) = proof e.
Proof.
  intros Hs Hr Hdone Hf Hme Hcase. assert (Hc := reachable_consistent s Hs).
  assert (Hgoal : forall s', (exists e', Index.find h (m_proofs s') = Some e' /\ proof e' = proof e) ->
            exists_ h s' = true /\ lookup h s' = proof e).
  { intros s' (e' & Hf' & Hp). unfold exists_, lookup. rewrite Hf'. auto. }
  apply Hgoal.
  destruct c as [dsp|dsp peer now|h0|h0| |h0| |max|secs]; cbn [exec] in *.
  - unfold void, bind, ret. destruct (isEmpty dsp) eqn:He.
    + rewrite add_empty by assumption. cbn [result store logged]. eauto.
    + destruct (add_post dsp s Hc (fun _ => Hr) He)
        as (b & s1 & e1 & Ha & _ & Hf1 & _ & _ & _ & Hfr & Hrel).
      rewrite Ha. cbn [result store logged]. destruct (N.eq_dec h (GetId dsp)) as [->|Hne].
      * rewrite Hf in Hrel. destruct Hrel as [-> _]. eauto.
      * rewrite (Hfr h Hne). eauto.
  - destruct (isEmpty dsp) eqn:He.
    + unfold addOrphan, bind. rewrite add_empty by assumption. cbn [result store logged]. eauto.
    + destruct (highWaterMark (m_maxOrphans s)) as [high|] eqn:Hh.
      2:{ rewrite (addOrphan_undefined dsp peer now s Hc Hr He Hh) in Hdone. contradiction. }
      destruct (addOrphan_run dsp peer now s high Hc (fun _ => Hr) He Hh) as (lg & Hrun & _).
      destruct (add_post dsp s Hc (fun _ => Hr) He)
        as (b & s1 & e1 & Ha & Hc1 & Hf1 & Ho1 & _ & _ & Hfr & Hrel).
      rewrite Ha in Hrun. cbn [result store logged] in Hrun. rewrite Hrun. cbn [result store logged].
      destruct (N.eq_dec h (GetId dsp)) as [->|Hne].
      * destruct (mark_orphan_spec_facts (GetId dsp) peer now high s1 e1 Hc1 Hf1 Ho1)
          as (Gf & _).
        rewrite Hf in Hrel. destruct Hrel as [-> _]. eauto.
      * destruct Hcase as [Ho|Hno]; [|exfalso; eapply Hno; reflexivity].
        exists e. split; [|reflexivity].
        apply (mark_orphan_spec_keeps (GetId dsp) peer now high s1 e1); try assumption.
        rewrite (Hfr h Hne). exact Hf.
  - destruct (Index.find h0 (m_proofs s)) as [it|] eqn:Hf0.
    + destruct (orphan it) eqn:Ho.
      * rewrite (claimOrphan_orphan h0 s it) by assumption. cbn [result store logged]. fields.
        destruct (N.eq_dec h h0) as [->|Hne].
        -- rewrite (update_find h0 (set_orphan false) _ _ (set_orphan_keeps_id false) Hf).
           eauto.
        -- rewrite update_find_other by (apply set_orphan_keeps_id || exact Hne). eauto.
      * rewrite (claimOrphan_plain h0 s it) by assumption. cbn [result store logged]. eauto.
    + rewrite claimOrphan_absent by assumption. cbn [result store logged]. eauto.
  - unfold void, bind, ret. cbn [may_erase] in Hme.
    destruct (Index.find h0 (m_proofs s)) as [it|] eqn:Hf0.
    + rewrite (remove_present h0 s it) by assumption. cbn [result store logged]. fields.
      rewrite erase_find_other by congruence. eauto.
    + rewrite remove_absent by assumption. cbn [result store logged]. eauto.
  - exfalso. apply Hme. exact I.
  - cbn [result store logged]. eauto.
  - cbn [result store logged]. eauto.
  - cbn [result store logged]. eauto.
  - unfold setSecondsToKeepOrphans. destruct (0 <=? secs)%Z; cbn [result store logged]; eauto.
Qed.

Lemma records_stay_witness :
  let s := store (claimOrphan 2 Sample.two_orphans) in
  exists_ 2 (store (exec (AddOrphan (Sample.dsp 3) 7%Z 102%Z) s)) = true /\
  lookup 2 (store (exec (AddOrphan (Sample.dsp 3) 7%Z 102%Z) s)) = Sample.dsp 2.
Proof.
  assert (Hs : reachable (store (exec (ClaimOrphan 2) Sample.two_orphans))).
  { apply reachable_call; [apply two_orphans_reachable|vm_compute; reflexivity|exact I]. }
  cbv zeta.
  apply (records_stay (AddOrphan (Sample.dsp 3) 7%Z 102%Z) 2
           (mkEntry (Sample.dsp 2) false 6%Z 101%Z)
           (store (claimOrphan 2 Sample.two_orphans))).
  - exact Hs.
  - vm_compute. reflexivity.
  - vm_compute. exact I.
  - reflexivity.
  - intros H. exact H.
  - left. reflexivity.
Defined.

(** ** The order of the sweep *)

(** The sweep cuts the index in two: of the front part the evictable
    records are gone, the rest is as it was. *)
Lemma evict_split a k c :
  exists l1 l2, c = l1 ++ l2 /\
    evict a k c = filter (fun e => negb (evictable a e)) l1 ++ l2.
Proof.
  revert k. induction c as [|x c IH]; intros k.
  - exists [], []. rewrite evict_nil. split; reflexivity.
  - destruct k as [|k].
    + exists [], (x :: c). rewrite evict_0. split; reflexivity.
    + cbn [evict]. destruct (evictable a x) eqn:E.
      * destruct (IH k) as (l1 & l2 & -> & ->). exists (x :: l1), l2.
        split; [reflexivity|]. cbn [filter]. rewrite E. reflexivity.
      * destruct (IH (S k)) as (l1 & l2 & -> & ->). exists (x :: l1), l2.
        split; [reflexivity|]. cbn [filter]. rewrite E. reflexivity.
Qed.

Lemma erase_keeps h c e : In e c -> entry_id e <> h -> In e (Index.erase h c).
Proof.
  induction c as [|x c IH]; [tauto|]. intros [->|Hin] Hne; cbn [Index.erase].
  - destruct (Index.has_id h e) eqn:E; [apply has_id_true in E; contradiction|].
    left. reflexivity.
  - destruct (Index.has_id h x); [exact Hin|]. right. apply IH; assumption.
Qed.

(** Records other than [h] stand in time order when the index without [h]
    is ordered. *)
Lemma ordered_but_one h l1 l2 x y :
  time_ordered (Index.erase h (l1 ++ l2)) ->
  In x l1 -> In y l2 -> entry_id x <> h -> entry_id y <> h -> le_ts x y.
Proof.
  induction l1 as [|z l1 IH]; [contradiction|].
  intros Hs Hx Hy Hnx Hny. cbn [app Index.erase] in Hs.
  destruct (Index.has_id h z) eqn:E.
  - apply has_id_true in E. destruct Hx as [->|Hx]; [contradiction|].
    apply ordered_app in Hs. destruct Hs as (_ & _ & Hs). apply Hs; assumption.
  - unfold time_ordered in Hs. inversion Hs as [|? ? Hs' Hall]; subst.
    destruct Hx as [->|Hx].
    + rewrite Forall_forall in Hall. apply Hall. apply erase_keeps; [|exact Hny].
      apply in_or_app. right. exact Hy.
    + apply IH; assumption.
Qed.

Lemma evict_oldest a k c x y :
  NoDup (ids c) -> time_ordered (Index.erase a c) ->
  In x c -> evictable a x = true -> ~ In x (evict a k c) ->
  In y (evict a k c) -> evictable a y = true ->
  le_ts x y.
Proof.
  intros Hnd Hs Hx Ex Hxo Hy Ey.
  destruct (evict_split a k c) as (l1 & l2 & Hc & He). rewrite He in Hxo, Hy.
  subst c.
  assert (Hx1 : In x l1).
  { apply in_app_or in Hx. destruct Hx as [Hx|Hx]; [exact Hx|].
    exfalso. apply Hxo. apply in_or_app. right. exact Hx. }
  assert (Hy2 : In y l2).
  { apply in_app_or in Hy. destruct Hy as [Hy|Hy]; [|exact Hy].
    apply filter_In in Hy. destruct Hy as [_ Hy]. rewrite Ey in Hy. discriminate. }
  assert (Hid : forall e, evictable a e = true -> entry_id e <> a).
  { intros e. unfold evictable. intros H. apply andb_prop in H. destruct H as [_ H].
    apply negb_true_iff, N.eqb_neq in H. congruence. }
  eapply ordered_but_one; eauto.
Qed.

(** X11.  The sweep of [addOrphan] removes the oldest first: of two orphans
    stored before the call, neither of them the record being taken in, one
    that is gone after the call has a time stamp not above that of one that
    is still stored. *)
Theorem sweep_oldest_first (dsp : DoubleSpendProof) (peer : NodeId) (now : Z)
    (s : Storage) (h1 h2 : DspId) (e1 e2 : Entry) :
  reachable s -> has_room s -> isEmpty dsp = false ->
  completes (result (addOrphan dsp peer now s)) ->
  Index.find h1 (m_proofs s) = Some e1 -> orphan e1 = true -> h1 <> GetId dsp ->
  Index.find h2 (m_proofs s) = Some e2 -> orphan e2 = true -> h2 <> GetId dsp ->
  exists_ h1 (store (addOrphan dsp peer now s)) = false ->
  exists_ h2 (store (addOrphan dsp peer now s)) = true ->
  (timeStamp e1 <= timeStamp e2)%Z.
Proof.
  intros Hs Hr He Hdone Hf1 Ho1 Hn1 Hf2 Ho2 Hn2 Hgone Hkept.
  assert (Hc := reachable_consistent s Hs).
  destruct (highWaterMark (m_maxOrphans s)) as [high|] eqn:Hh.
  2:{ rewrite (addOrphan_undefined dsp peer now s Hc Hr He Hh) in Hdone. contradiction. }
  destruct (addOrphan_run dsp peer now s high Hc (fun _ => Hr) He Hh) as (lg & Hrun & _).
  destruct (add_post dsp s Hc (fun _ => Hr) He)
    as (b & s1 & e0 & Ha & Hc1 & Hf0 & Ho0 & _ & _ & Hfr & _).
  rewrite Ha in Hrun. cbn [store] in Hrun. rewrite Hrun in Hgone, Hkept.
  cbn [store] in Hgone, Hkept.
  destruct (mark_orphan_spec_index (GetId dsp) peer now high s1 e0 Hc1 Hf0 Ho0)
    as (k & Hnd2 & Hnd3 & Hp & Hnd4). cbv zeta in *.
  set (c2 := Index.update (GetId dsp) (adopt peer now) (m_proofs s1)) in *.
  assert (Hfin : forall h, h <> GetId dsp ->
            Index.find h (m_proofs (mark_orphan_spec (GetId dsp) peer now high s1))
            = Index.find h (evict (GetId dsp) k c2)).
  { intros h Hne. rewrite (find_perm h _ _ Hnd4 (Permutation_sym Hp)).
    apply update_find_other; [apply set_orphan_keeps_id|exact Hne]. }
  assert (Hin : forall h e, h <> GetId dsp -> Index.find h (m_proofs s) = Some e ->
            Index.find h c2 = Some e).
  { intros h e Hne Hf. subst c2.
    rewrite update_find_other by (apply adopt_keeps_id || exact Hne).
    rewrite (Hfr h Hne). exact Hf. }
  unfold exists_ in Hgone, Hkept. rewrite Hfin in Hgone, Hkept by assumption.
  assert (Hev : forall h e, h <> GetId dsp -> Index.find h c2 = Some e ->
            orphan e = true -> evictable (GetId dsp) e = true).
  { intros h e Hne Hf Ho. unfold evictable. rewrite Ho. cbn [andb].
    apply negb_true_iff, N.eqb_neq. destruct (find_in _ _ _ Hf) as [_ Hid].
    congruence. }
  assert (G1 := Hin h1 e1 Hn1 Hf1). assert (G2 := Hin h2 e2 Hn2 Hf2).
  apply (evict_oldest (GetId dsp) k c2 e1 e2).
  - exact Hnd2.
  - subst c2. rewrite update_erase by apply adopt_keeps_id.
    apply erase_ordered. destruct Hc1 as [_ _ _ H4 _]. exact H4.
  - apply (find_in _ _ _ G1).
  - apply (Hev h1); assumption.
  - intros Hin1. destruct (find_in _ _ _ G1) as [_ Hid].
    rewrite (find_unique h1 _ e1 Hnd3 Hin1 Hid) in Hgone. discriminate.
  - destruct (Index.find h2 (evict (GetId dsp) k c2)) as [e2'|] eqn:F; [|discriminate].
    destruct (find_in _ _ _ F) as [Hin2 Hid2].
    assert (Hin2' := evict_in _ _ _ _ Hin2).
    rewrite (find_unique h2 c2 e2' Hnd2 Hin2' Hid2) in G2.
    injection G2 as <-. exact Hin2.
  - apply (Hev h2); assumption.
Qed.

Lemma sweep_oldest_first_witness :
  let s' := store (addOrphan (Sample.dsp 7) 9%Z 500%Z Sample.two_orphans) in
  exists_ 1 s' = false /\ exists_ 2 s' = true /\ (100 <= 101)%Z.
Proof.
  cbv zeta. split; [vm_compute; reflexivity|]. split; [vm_compute; reflexivity|].
  apply (sweep_oldest_first (Sample.dsp 7) 9%Z 500%Z Sample.two_orphans 1 2
           (mkEntry (Sample.dsp 1) true 5%Z 100%Z)
           (mkEntry (Sample.dsp 2) true 6%Z 101%Z)).
  - apply two_orphans_reachable.
  - vm_compute. reflexivity.
  - reflexivity.
  - vm_compute. exact I.
  - vm_compute. reflexivity.
  - reflexivity.
  - discriminate.
  - vm_compute. reflexivity.
  - reflexivity.
  - discriminate.
  - vm_compute. reflexivity.
  - vm_compute. reflexivity.
Defined.

(** ** Announcing a stored orphan again *)

(** X12.  [addOrphan] of a proof that is stored as an orphan, with its peer
    handle and its time stamp set, changes nothing and logs nothing as long
    as the orphan count is within the high-water mark: [add] clears the flag
    and takes the record out of the count, the modifier counts it in again
    and sets the flag. *)
Theorem addOrphan_again (dsp : DoubleSpendProof) (peer : NodeId) (now : Z)
    (s : Storage) (e : Entry) (high : N) :
  reachable s -> isEmpty dsp = false ->
  Index.find (GetId dsp) (m_proofs s) = Some e -> orphan e = true ->
  (0 <= nodeId e \/ peer <= -1)%Z -> (0 <= timeStamp e)%Z ->
  highWaterMark (maxOrphans s) = Some high -> numOrphans s <= high ->
  addOrphan dsp peer now s = mkRun (Returns tt) s [].
Proof.
  intros Hs He Hf Ho Hpeer Hts Hh Hn. unfold maxOrphans, numOrphans in *.
  assert (Hc := reachable_consistent s Hs).
  assert (Hroom : Index.find (GetId dsp) (m_proofs s) = None -> has_room s)
    by (rewrite Hf; discriminate).
  destruct (orphan_counted s _ e Hc Hf Ho) as [Hpos _].
  destruct (addOrphan_run dsp peer now s high Hc Hroom He Hh) as (lg & Hrun & Hlg & _).
  rewrite (add_known_orphan dsp s e Hc He Hf Ho) in Hrun, Hlg. cbn [store] in Hrun, Hlg.
  fields. rewrite Hlg in Hrun by lia. rewrite Hrun. f_equal.
  unfold mark_orphan_spec. fields.
  rewrite (update_find _ _ _ _ (set_orphan_keeps_id false) Hf).
  cbn [orphan set_orphan]. unfold sweep_spec. fields.
  replace (m_numOrphans s - 1 + 1 <=? high) with true by (symmetry; apply N.leb_le; lia).
  fields.
  rewrite !update_update by (apply set_orphan_keeps_id || apply adopt_keeps_id).
  rewrite (update_ext_at _ _ (fun x => x) _ e Hf).
  - rewrite update_same. rewrite relink_same by (destruct Hc; assumption).
    replace (m_numOrphans s - 1 + 1) with (m_numOrphans s) by lia.
    destruct s. reflexivity.
  - destruct e as [p o n t]. cbn in *. subst o. unfold adopt. cbn.
    replace (t <? 0)%Z with false by (symmetry; apply Z.ltb_ge; lia).
    destruct Hpeer as [Hp|Hp].
    + replace (n <? 0)%Z with false by (symmetry; apply Z.ltb_ge; lia). reflexivity.
    + replace (-1 <? peer)%Z with false by (symmetry; apply Z.ltb_ge; lia).
      rewrite andb_false_r. reflexivity.
Qed.

Lemma addOrphan_again_witness :
  addOrphan (Sample.dsp 2) 8%Z 300%Z Sample.two_orphans
  = mkRun (Returns tt) Sample.two_orphans [].
Proof.
  apply (addOrphan_again (Sample.dsp 2) 8%Z 300%Z Sample.two_orphans
           (mkEntry (Sample.dsp 2) true 6%Z 101%Z) 2).
  - apply two_orphans_reachable.
  - reflexivity.
  - vm_compute. reflexivity.
  - reflexivity.
  - left. cbn. lia.
  - cbn. lia.
  - vm_compute. reflexivity.
  - vm_compute. discriminate.
Defined.

(** ** What a call leaves alone *)

Lemma add_settings dsp s :
  consistent s ->
  m_recentRejects (store (add dsp s)) = m_recentRejects s /\
  m_maxOrphans (store (add dsp s)) = m_maxOrphans s /\
  m_secondsToKeepOrphans (store (add dsp s)) = m_secondsToKeepOrphans s.
Proof.
  intros Hc. destruct (isEmpty dsp) eqn:He.
  - rewrite add_empty by assumption. auto.
  - destruct (Index.find (GetId dsp) (m_proofs s)) as [it|] eqn:Hf.
    + destruct (orphan it) eqn:Ho.
      * rewrite (add_known_orphan dsp s it) by assumption. auto.
      * rewrite (add_known_plain dsp s it) by assumption. auto.
    + rewrite add_new by assumption. auto.
Qed.

Lemma mark_orphan_spec_settings h peer now high s :
  m_recentRejects (mark_orphan_spec h peer now high s) = m_recentRejects s /\
  m_maxOrphans (mark_orphan_spec h peer now high s) = m_maxOrphans s /\
  m_secondsToKeepOrphans (mark_orphan_spec h peer now high s) = m_secondsToKeepOrphans s.
Proof.
  unfold mark_orphan_spec. destruct (Index.find h (m_proofs s)) as [e|]; [|auto].
  destruct (orphan e); [auto|]. unfold sweep_spec. fields.
  destruct (m_numOrphans s + 1 <=? high); auto.
Qed.

Lemma exec_settings c s :
  consistent s -> has_room s -> completes (result (exec c s)) ->
  (writes_filter c = false -> m_recentRejects (store (exec c s)) = m_recentRejects s) /\
  m_maxOrphans (store (exec c s))
    = match c with SetMaxOrphans max => max | _ => m_maxOrphans s end /\
  m_secondsToKeepOrphans (store (exec c s))
    = match c with
      | SetSecondsToKeepOrphans secs =>
          if (0 <=? secs)%Z then secs else m_secondsToKeepOrphans s
      | _ => m_secondsToKeepOrphans s
      end.
Proof.
  intros Hc Hr Hdone.
  destruct c as [dsp|dsp peer now|h0|h0| |h0| |max|secs]; cbn [exec writes_filter] in *.
  - unfold void, bind, ret. destruct (add_settings dsp s Hc) as (A1 & A2 & A3).
    destruct (add dsp s) as [[b|x| |] s1 lg]; cbn [result store logged] in *; auto.
  - destruct (add_settings dsp s Hc) as (A1 & A2 & A3).
    destruct (isEmpty dsp) eqn:He.
    + unfold addOrphan, bind. rewrite add_empty by assumption.
      cbn [result store logged]. auto.
    + destruct (highWaterMark (m_maxOrphans s)) as [high|] eqn:Hh.
      2:{ rewrite (addOrphan_undefined dsp peer now s Hc Hr He Hh) in Hdone. contradiction. }
      destruct (addOrphan_run dsp peer now s high Hc (fun _ => Hr) He Hh) as (lg & -> & _).
      cbn [store].
      destruct (mark_orphan_spec_settings (GetId dsp) peer now high (store (add dsp s)))
        as (B1 & B2 & B3).
      rewrite B1, B2, B3. auto.
  - destruct (Index.find h0 (m_proofs s)) as [it|] eqn:Hf0.
    + destruct (orphan it) eqn:Ho.
      * rewrite (claimOrphan_orphan h0 s it) by assumption. auto.
      * rewrite (claimOrphan_plain h0 s it) by assumption. auto.
    + rewrite claimOrphan_absent by assumption. auto.
  - unfold void, bind, ret.
    destruct (Index.find h0 (m_proofs s)) as [it|] eqn:Hf0.
    + rewrite (remove_present h0 s it) by assumption. auto.
    + rewrite remove_absent by assumption. auto.
  - split; [discriminate|]. auto.
  - split; [discriminate|]. auto.
  - split; [discriminate|]. auto.
  - auto.
  - unfold setSecondsToKeepOrphans. destruct (0 <=? secs)%Z; auto.
Qed.

(** X13.  The rejected filter and the records are kept apart: [add],
    [addOrphan], [claimOrphan], [remove] and the two setters leave the answer
    of [isRecentlyRejectedProof] as it was for every identity, and
    [markProofRejected], [newBlockFound] and the two setters leave the
    records, their flags and the orphan count as they were. *)
Theorem filter_and_records_apart (c : Call) (s : Storage) :
  reachable s -> has_room s -> completes (result (exec c s)) ->
  (writes_filter c = false ->
   forall h, isRecentlyRejectedProof h (store (exec c s)) = isRecentlyRejectedProof h s) /\
  match c with
  | MarkProofRejected _ | NewBlockFound | SetMaxOrphans _ | SetSecondsToKeepOrphans _ =>
      getAll true (store (exec c s)) = getAll true s /\
      (forall prevOut, findOrphans prevOut (store (exec c s)) = findOrphans prevOut s) /\
      (forall h, lookup h (store (exec c s)) = lookup h s) /\
      size (store (exec c s)) = size s /\
      numOrphans (store (exec c s)) = numOrphans s
  | _ => True
  end.
Proof.
  intros Hs Hr Hdone. assert (Hc := reachable_consistent s Hs).
  split.
  - intros Hw h. unfold isRecentlyRejectedProof.
    destruct (exec_settings c s Hc Hr Hdone) as (H & _). rewrite (H Hw). reflexivity.
  - destruct c; try exact I; cbn [exec].
    + repeat split.
    + repeat split.
    + repeat split.
    + unfold setSecondsToKeepOrphans. destruct (0 <=? secs)%Z; repeat split.
Qed.

Lemma filter_and_records_apart_witness :
  isRecentlyRejectedProof 7
    (store (exec (AddOrphan (Sample.dsp 7) 9%Z 500%Z) Sample.two_orphans))
  = isRecentlyRejectedProof 7 Sample.two_orphans.
Proof.
  apply (filter_and_records_apart (AddOrphan (Sample.dsp 7) 9%Z 500%Z) Sample.two_orphans).
  - apply two_orphans_reachable.
  - vm_compute. reflexivity.
  - vm_compute. exact I.
  - reflexivity.
Defined.

(** X14.  The two settings change only through their setters:
    [maxOrphans()] is the last value given to [setMaxOrphans],
    [secondsToKeepOrphans()] the last value that was not negative given to
    [setSecondsToKeepOrphans], which ignores a negative one; [clear] resets
    neither, and no other call touches them. *)
Theorem settings_persist (c : Call) (s : Storage) :
  reachable s -> has_room s -> completes (result (exec c s)) ->
  maxOrphans (store (exec c s))
    = match c with SetMaxOrphans max => max | _ => maxOrphans s end /\
  secondsToKeepOrphans (store (exec c s))
    = match c with
      | SetSecondsToKeepOrphans secs =>
          if (0 <=? secs)%Z then secs else secondsToKeepOrphans s
      | _ => secondsToKeepOrphans s
      end.
Proof.
  intros Hs Hr Hdone. assert (Hc := reachable_consistent s Hs).
  destruct (exec_settings c s Hc Hr Hdone) as (_ & H1 & H2).
  unfold maxOrphans, secondsToKeepOrphans. split; assumption.
Qed.

Lemma settings_persist_witness :
  maxOrphans (store (exec Clear Sample.two_orphans)) = 2 /\
  secondsToKeepOrphans (store (exec Clear Sample.two_orphans)) = 90%Z.
Proof.
  apply (settings_persist Clear Sample.two_orphans).
  - apply two_orphans_reachable.
  - vm_compute. reflexivity.
  - vm_compute. exact I.
Defined.

(** ** Identities are listed once *)

Lemma getAll_ids b c :
  map (fun p => GetId (fst p)) (getAll_loop b c [])
  = ids (filter (fun e => negb (orphan e && negb b)) c).
Proof.
  rewrite getAll_loop_eq. cbn [app]. unfold ids, entry_id.
  rewrite map_map. reflexivity.
Qed.

(** X15.  No identity is listed twice by [getAll], with or without the
    orphans, and the listing without orphans is the listing of all records
    when no orphan is stored. *)
Theorem getAll_distinct (b : bool) (s : Storage) :
  reachable s ->
  NoDup (map (fun p => GetId (fst p)) (getAll b s)) /\
  (numOrphans s = 0 -> getAll false s = getAll true s).
Proof.
  intros Hs. destruct (reachable_consistent s Hs) as [H1 H2 _ _ _]. split.
  - unfold getAll. rewrite getAll_ids. apply filter_ids_nodup, H1.
  - unfold numOrphans. intros H0. rewrite H0 in H2. unfold getAll.
    rewrite !getAll_loop_eq. cbn [app]. f_equal.
    unfold count_orphans in H2.
    assert (Hall : forall e, In e (m_proofs s) -> orphan e = false).
    { intros e Hin. destruct (orphan e) eqn:Ho; [|reflexivity].
      assert (Hf : In e (filter orphan (m_proofs s))) by (apply filter_In; auto).
      destruct (filter orphan (m_proofs s)); [contradiction|]. cbn [length] in H2. lia. }
    apply filter_ext_in. intros e Hin. rewrite (Hall e Hin). reflexivity.
Qed.

Lemma getAll_distinct_witness :
  NoDup (map (fun p => GetId (fst p)) (getAll true Sample.two_orphans)).
Proof.
  apply (getAll_distinct true Sample.two_orphans).
  apply two_orphans_reachable.
Defined.
